(** * The duplex voice session of the EVA assistant

    A shallow embedding of the session logic of [App] (the React component
    that holds the live session): [startSession], [stopSession],
    [handleMessage], the [onended] callback of a playback source,
    [initLocalRecognition], the recogniser's callbacks and the wake-word
    effect.

    Conventions of the embedding.
    - The [useState] cells and the [useRef] cells of the component are
      fields of one record [State].  A callback is a function
      [State -> State] that performs the assignments of the source in
      program order.  State updates made by one callback are applied
      together; the component renders once after the callback.
    - A callback is a closure of the render that created it: it reads the
      [status] and [isHandsFree] of that render, and it calls the
      [startSession], [stopSession] and [initLocalRecognition] that this
      render got from [useCallback].  [renders] keeps, for every render
      that changed [status] or [isHandsFree], these values ([Hooks]); a
      callback takes the number of its render as first argument.  The
      references ([xRef.current]) are shared by all renders.
    - Objects created by the platform (live sessions, audio contexts,
      buffer sources, recognisers) are named by numbers drawn from
      [nextId].  Calls into the platform are appended to the ghost field
      [trace]; pending [setTimeout] callbacks are kept in [timers]; the
      statuses the session moves through are kept in [statusHistory].
    - Times of the output clock ([ctx.currentTime], [buffer.duration]) are
      rationals, in seconds; [Date.now()] is an integer.
    - The settings ([voice], [language], [systemInstruction]) and the two
      panels stay as mounted; the microphone frames sent by the script
      processor are left out.  The capture callback, the face
      ([Visualizer]), the preferences panel ([Settings]) and the history
      panel are embedded on their own, as functions of what they are
      given. *)

From Stdlib Require Import QArith Qminmax Qabs Lqa ZArith String Ascii List Sorted.
From stdpp Require Import base decidable option list gmap.
Import ListNotations.

Local Open Scope string_scope.
Local Open Scope list_scope.

(** ** Data model *)

(** [ConnectionStatus] of types.ts. *)
Inductive ConnectionStatus := DISCONNECTED | CONNECTING | CONNECTED | ERROR.

(** The visual status ['idle' | 'listening' | 'speaking' | 'waking']. *)
Inductive VisualStatus := idle | listening | speaking | waking.

Inductive Sender := user | model.

(** [Transcription] of types.ts. *)
Record Transcription := mkTranscription {
  text : string;
  sender : Sender;
  timestamp : Z
}.

(** The value of [transcriptRef]: the draft of the running turn. *)
Record Draft := mkDraft {
  input : string;
  output : string
}.

#[global] Instance ConnectionStatus_eq_dec : EqDecision ConnectionStatus.
Proof. solve_decision. Defined.
#[global] Instance VisualStatus_eq_dec : EqDecision VisualStatus.
Proof. solve_decision. Defined.
#[global] Instance Sender_eq_dec : EqDecision Sender.
Proof. solve_decision. Defined.

(** The fields of a [LiveServerMessage] that [handleMessage] reads.
    [audioData] is [Some d] when
    [serverContent.modelTurn.parts[0].inlineData.data] is a non-empty
    payload; [d] is the [duration] of the buffer that [decodeAudioData]
    (utils/audioUtils, not part of the sources at hand) returns for it. *)
Record LiveServerMessage := mkMessage {
  audioData : option Q;
  inputTranscription : option string;
  outputTranscription : option string;
  turnComplete : bool;
  interrupted : bool
}.

Inductive CtxKind := InputCtx | OutputCtx.

(** Calls into the platform, in the order they are made. *)
Inductive Effect :=
| AudioContextNew (k : CtxKind) (c : nat)      (* new AudioContext({sampleRate}) *)
| GetUserMedia (a : nat)                       (* navigator.mediaDevices.getUserMedia *)
| LiveConnect (a : nat)                        (* ai.live.connect: the channel is opened *)
| SessionClose (a : nat)                       (* sessionRef.current.close() *)
| AudioContextClose (k : CtxKind) (c : nat)    (* ctx.close() *)
| SourceStart (src : nat) (at_time : Q) (duration : Q)  (* source.start(t) *)
| SourcesStop (srcs : gset nat)                (* sourcesRef.current.forEach(s => s.stop()) *)
| RecognitionStart (r : nat)                   (* recognition.start() *)
| RecognitionStop (r : nat).                   (* recognition.stop() *)

(** What a pending [setTimeout] callback does when it fires. *)
Inductive TimerAction :=
| DelayedStop (k : nat)           (* () => stopSession(), the one of render k *)
| RecognitionRestart (r : nat).   (* () => recognition.start() *)

(** What the closures of one render see: the two cells they read, and the
    renders that created the [startSession] and the [stopSession] which
    [useCallback] returned in this render.  ([initLocalRecognition] depends
    on both cells: every render recorded here created its own.) *)
Record Hooks := mkHooks {
  h_status : ConnectionStatus;
  h_isHandsFree : bool;
  h_startSession : nat;
  h_stopSession : nat
}.

Record State := mkState {
  (* useState *)
  status : ConnectionStatus;
  isHandsFree : bool;
  transcriptions : list Transcription;
  currentStatus : VisualStatus;
  (* useRef *)
  sessionRef : option nat;
  sessionPromiseRef : option nat;
  inputAudioCtxRef : option nat;
  outputAudioCtxRef : option nat;
  nextStartTimeRef : Q;
  sourcesRef : gset nat;
  transcriptRef : Draft;
  localRecognitionRef : option nat;
  (* closures *)
  renders : list Hooks;             (* the renders that changed status or isHandsFree *)
  callbacksOf : gmap nat nat;       (* connection attempt |-> render of its callbacks *)
  recognitionOf : gmap nat nat;     (* recogniser |-> render of its callbacks *)
  (* the platform *)
  speechRecognitionAvailable : bool;  (* window.SpeechRecognition || webkit... *)
  timers : list (Z * TimerAction);    (* pending setTimeout: delay in ms, callback *)
  nextId : nat;
  (* ghost *)
  trace : list Effect;
  statusHistory : list ConnectionStatus
}.

(** The hooks of the first render. *)
Definition mountHooks : Hooks := mkHooks DISCONNECTED false 0 0.

(** The component as mounted: the initial values of the hooks. *)
Definition initialState (speech : bool) : State :=
  {| status := DISCONNECTED; isHandsFree := false; transcriptions := [];
     currentStatus := idle;
     sessionRef := None; sessionPromiseRef := None;
     inputAudioCtxRef := None; outputAudioCtxRef := None;
     nextStartTimeRef := 0%Q; sourcesRef := ∅;
     transcriptRef := mkDraft "" ""; localRecognitionRef := None;
     renders := [mountHooks]; callbacksOf := ∅; recognitionOf := ∅;
     speechRecognitionAvailable := speech; timers := []; nextId := 0;
     trace := []; statusHistory := [] |}.

(** ** Assignments *)

Definition set_status (v : ConnectionStatus) (s : State) : State :=
  mkState
    v (isHandsFree s) (transcriptions s) (currentStatus s) (sessionRef s)
    (sessionPromiseRef s) (inputAudioCtxRef s) (outputAudioCtxRef s)
    (nextStartTimeRef s) (sourcesRef s) (transcriptRef s)
    (localRecognitionRef s) (renders s) (callbacksOf s) (recognitionOf s)
    (speechRecognitionAvailable s) (timers s) (nextId s) (trace s)
    (statusHistory s).

Definition setIsHandsFree (v : bool) (s : State) : State :=
  mkState
    (status s) v (transcriptions s) (currentStatus s) (sessionRef s)
    (sessionPromiseRef s) (inputAudioCtxRef s) (outputAudioCtxRef s)
    (nextStartTimeRef s) (sourcesRef s) (transcriptRef s)
    (localRecognitionRef s) (renders s) (callbacksOf s) (recognitionOf s)
    (speechRecognitionAvailable s) (timers s) (nextId s) (trace s)
    (statusHistory s).

Definition setTranscriptions (v : list Transcription) (s : State) : State :=
  mkState
    (status s) (isHandsFree s) v (currentStatus s) (sessionRef s)
    (sessionPromiseRef s) (inputAudioCtxRef s) (outputAudioCtxRef s)
    (nextStartTimeRef s) (sourcesRef s) (transcriptRef s)
    (localRecognitionRef s) (renders s) (callbacksOf s) (recognitionOf s)
    (speechRecognitionAvailable s) (timers s) (nextId s) (trace s)
    (statusHistory s).

Definition setCurrentStatus (v : VisualStatus) (s : State) : State :=
  mkState
    (status s) (isHandsFree s) (transcriptions s) v (sessionRef s)
    (sessionPromiseRef s) (inputAudioCtxRef s) (outputAudioCtxRef s)
    (nextStartTimeRef s) (sourcesRef s) (transcriptRef s)
    (localRecognitionRef s) (renders s) (callbacksOf s) (recognitionOf s)
    (speechRecognitionAvailable s) (timers s) (nextId s) (trace s)
    (statusHistory s).

Definition set_sessionRef (v : option nat) (s : State) : State :=
  mkState
    (status s) (isHandsFree s) (transcriptions s) (currentStatus s) v
    (sessionPromiseRef s) (inputAudioCtxRef s) (outputAudioCtxRef s)
    (nextStartTimeRef s) (sourcesRef s) (transcriptRef s)
    (localRecognitionRef s) (renders s) (callbacksOf s) (recognitionOf s)
    (speechRecognitionAvailable s) (timers s) (nextId s) (trace s)
    (statusHistory s).

Definition set_sessionPromiseRef (v : option nat) (s : State) : State :=
  mkState
    (status s) (isHandsFree s) (transcriptions s) (currentStatus s)
    (sessionRef s) v (inputAudioCtxRef s) (outputAudioCtxRef s)
    (nextStartTimeRef s) (sourcesRef s) (transcriptRef s)
    (localRecognitionRef s) (renders s) (callbacksOf s) (recognitionOf s)
    (speechRecognitionAvailable s) (timers s) (nextId s) (trace s)
    (statusHistory s).

Definition set_inputAudioCtxRef (v : option nat) (s : State) : State :=
  mkState
    (status s) (isHandsFree s) (transcriptions s) (currentStatus s)
    (sessionRef s) (sessionPromiseRef s) v (outputAudioCtxRef s)
    (nextStartTimeRef s) (sourcesRef s) (transcriptRef s)
    (localRecognitionRef s) (renders s) (callbacksOf s) (recognitionOf s)
    (speechRecognitionAvailable s) (timers s) (nextId s) (trace s)
    (statusHistory s).

Definition set_outputAudioCtxRef (v : option nat) (s : State) : State :=
  mkState
    (status s) (isHandsFree s) (transcriptions s) (currentStatus s)
    (sessionRef s) (sessionPromiseRef s) (inputAudioCtxRef s) v
    (nextStartTimeRef s) (sourcesRef s) (transcriptRef s)
    (localRecognitionRef s) (renders s) (callbacksOf s) (recognitionOf s)
    (speechRecognitionAvailable s) (timers s) (nextId s) (trace s)
    (statusHistory s).

Definition set_nextStartTimeRef (v : Q) (s : State) : State :=
  mkState
    (status s) (isHandsFree s) (transcriptions s) (currentStatus s)
    (sessionRef s) (sessionPromiseRef s) (inputAudioCtxRef s)
    (outputAudioCtxRef s) v (sourcesRef s) (transcriptRef s)
    (localRecognitionRef s) (renders s) (callbacksOf s) (recognitionOf s)
    (speechRecognitionAvailable s) (timers s) (nextId s) (trace s)
    (statusHistory s).

Definition set_sourcesRef (v : gset nat) (s : State) : State :=
  mkState
    (status s) (isHandsFree s) (transcriptions s) (currentStatus s)
    (sessionRef s) (sessionPromiseRef s) (inputAudioCtxRef s)
    (outputAudioCtxRef s) (nextStartTimeRef s) v (transcriptRef s)
    (localRecognitionRef s) (renders s) (callbacksOf s) (recognitionOf s)
    (speechRecognitionAvailable s) (timers s) (nextId s) (trace s)
    (statusHistory s).

Definition set_transcriptRef (v : Draft) (s : State) : State :=
  mkState
    (status s) (isHandsFree s) (transcriptions s) (currentStatus s)
    (sessionRef s) (sessionPromiseRef s) (inputAudioCtxRef s)
    (outputAudioCtxRef s) (nextStartTimeRef s) (sourcesRef s) v
    (localRecognitionRef s) (renders s) (callbacksOf s) (recognitionOf s)
    (speechRecognitionAvailable s) (timers s) (nextId s) (trace s)
    (statusHistory s).

Definition set_localRecognitionRef (v : option nat) (s : State) : State :=
  mkState
    (status s) (isHandsFree s) (transcriptions s) (currentStatus s)
    (sessionRef s) (sessionPromiseRef s) (inputAudioCtxRef s)
    (outputAudioCtxRef s) (nextStartTimeRef s) (sourcesRef s)
    (transcriptRef s) v (renders s) (callbacksOf s) (recognitionOf s)
    (speechRecognitionAvailable s) (timers s) (nextId s) (trace s)
    (statusHistory s).

Definition set_renders (v : list Hooks) (s : State) : State :=
  mkState
    (status s) (isHandsFree s) (transcriptions s) (currentStatus s)
    (sessionRef s) (sessionPromiseRef s) (inputAudioCtxRef s)
    (outputAudioCtxRef s) (nextStartTimeRef s) (sourcesRef s)
    (transcriptRef s) (localRecognitionRef s) v (callbacksOf s)
    (recognitionOf s) (speechRecognitionAvailable s) (timers s) (nextId s)
    (trace s) (statusHistory s).

Definition set_callbacksOf (v : gmap nat nat) (s : State) : State :=
  mkState
    (status s) (isHandsFree s) (transcriptions s) (currentStatus s)
    (sessionRef s) (sessionPromiseRef s) (inputAudioCtxRef s)
    (outputAudioCtxRef s) (nextStartTimeRef s) (sourcesRef s)
    (transcriptRef s) (localRecognitionRef s) (renders s) v (recognitionOf s)
    (speechRecognitionAvailable s) (timers s) (nextId s) (trace s)
    (statusHistory s).

Definition set_recognitionOf (v : gmap nat nat) (s : State) : State :=
  mkState
    (status s) (isHandsFree s) (transcriptions s) (currentStatus s)
    (sessionRef s) (sessionPromiseRef s) (inputAudioCtxRef s)
    (outputAudioCtxRef s) (nextStartTimeRef s) (sourcesRef s)
    (transcriptRef s) (localRecognitionRef s) (renders s) (callbacksOf s) v
    (speechRecognitionAvailable s) (timers s) (nextId s) (trace s)
    (statusHistory s).

Definition set_timers (v : list (Z * TimerAction)) (s : State) : State :=
  mkState
    (status s) (isHandsFree s) (transcriptions s) (currentStatus s)
    (sessionRef s) (sessionPromiseRef s) (inputAudioCtxRef s)
    (outputAudioCtxRef s) (nextStartTimeRef s) (sourcesRef s)
    (transcriptRef s) (localRecognitionRef s) (renders s) (callbacksOf s)
    (recognitionOf s) (speechRecognitionAvailable s) v (nextId s) (trace s)
    (statusHistory s).

Definition set_nextId (v : nat) (s : State) : State :=
  mkState
    (status s) (isHandsFree s) (transcriptions s) (currentStatus s)
    (sessionRef s) (sessionPromiseRef s) (inputAudioCtxRef s)
    (outputAudioCtxRef s) (nextStartTimeRef s) (sourcesRef s)
    (transcriptRef s) (localRecognitionRef s) (renders s) (callbacksOf s)
    (recognitionOf s) (speechRecognitionAvailable s) (timers s) v (trace s)
    (statusHistory s).

Definition set_trace (v : list Effect) (s : State) : State :=
  mkState
    (status s) (isHandsFree s) (transcriptions s) (currentStatus s)
    (sessionRef s) (sessionPromiseRef s) (inputAudioCtxRef s)
    (outputAudioCtxRef s) (nextStartTimeRef s) (sourcesRef s)
    (transcriptRef s) (localRecognitionRef s) (renders s) (callbacksOf s)
    (recognitionOf s) (speechRecognitionAvailable s) (timers s) (nextId s) v
    (statusHistory s).

Definition set_statusHistory (v : list ConnectionStatus) (s : State) : State :=
  mkState
    (status s) (isHandsFree s) (transcriptions s) (currentStatus s)
    (sessionRef s) (sessionPromiseRef s) (inputAudioCtxRef s)
    (outputAudioCtxRef s) (nextStartTimeRef s) (sourcesRef s)
    (transcriptRef s) (localRecognitionRef s) (renders s) (callbacksOf s)
    (recognitionOf s) (speechRecognitionAvailable s) (timers s) (nextId s)
    (trace s) v.

(** [setStatus v]: the [useState] setter.  Setting the value the cell
    already holds changes nothing; otherwise the session moves to [v],
    which [statusHistory] records. *)
Definition setStatus (v : ConnectionStatus) (s : State) : State :=
  if decide (status s = v) then s
  else set_statusHistory (statusHistory s ++ [v]) (set_status v s).

(** A call into the platform. *)
Definition emit (e : Effect) (s : State) : State :=
  set_trace (trace s ++ [e]) s.

(** [setTimeout(cb, ms)]: the callback is pending until it fires. *)
Definition setTimeout (cb : TimerAction) (ms : Z) (s : State) : State :=
  set_timers (timers s ++ [(ms, cb)]) s.

(** A fresh platform object. *)
Definition fresh (s : State) : nat * State := (nextId s, set_nextId (S (nextId s)) s).

(** The hooks of render [k]. *)
Definition hooksAt (k : nat) (s : State) : Hooks :=
  default mountHooks (renders s !! k).

(** The latest render. *)
Definition currentRender (s : State) : nat := pred (length (renders s)).

(** ** Strings

    A string is its sequence of code units; [toLowerCase] maps the letters
    [A]..[Z] to [a]..[z] and leaves every other unit in place: the phrases
    looked for are lower-case ASCII, and transcripts are taken to be ASCII
    where their case matters. *)

Definition lower_ascii (c : ascii) : ascii :=
  let n := nat_of_ascii c in
  if ((65 <=? n) && (n <=? 90))%nat then ascii_of_nat (n + 32) else c.

Fixpoint toLowerCase (s : string) : string :=
  match s with
  | EmptyString => EmptyString
  | String c r => String (lower_ascii c) (toLowerCase r)
  end.

(** [hay.includes(needle)] *)
Fixpoint includes (hay needle : string) : bool :=
  if String.prefix needle hay then true
  else match hay with
       | EmptyString => false
       | String _ r => includes r needle
       end.

(** A string is truthy when it is not empty. *)
Definition truthy (s : string) : bool :=
  match s with EmptyString => false | String _ _ => true end.

(** ** The wake-word recogniser *)

(** [if (localRecognitionRef.current) localRecognitionRef.current.stop()] *)
Definition stopLocalRecognition (s : State) : State :=
  match localRecognitionRef s with
  | Some r => emit (RecognitionStop r) s
  | None => s
  end.

(** [initLocalRecognition] of render [k]: the callbacks of the recogniser
    it creates are closures of that render. *)
Definition initLocalRecognition (k : nat) (s : State) : State :=
  if negb (speechRecognitionAvailable s) then s
  else
    let s := stopLocalRecognition s in
    let '(recognition, s) := fresh s in
    let s := set_recognitionOf (<[recognition := k]> (recognitionOf s)) s in
    let s := set_localRecognitionRef (Some recognition) s in
    emit (RecognitionStart recognition) s.

(** ** The session life cycle *)

(** [stopSession] of render [k]: it reads the [isHandsFree] of that render
    and calls the [initLocalRecognition] of that render. *)
Definition stopSession (k : nat) (s : State) : State :=
  let isHandsFree := h_isHandsFree (hooksAt k s) in
  let s := match sessionRef s with
           | Some a => set_sessionRef None (emit (SessionClose a) s)
           | None => s
           end in
  let s := set_sessionPromiseRef None s in
  let s := match inputAudioCtxRef s with
           | Some c => emit (AudioContextClose InputCtx c) s
           | None => s
           end in
  let s := match outputAudioCtxRef s with
           | Some c => emit (AudioContextClose OutputCtx c) s
           | None => s
           end in
  let s := setStatus DISCONNECTED s in
  let s := setCurrentStatus idle s in
  if isHandsFree then initLocalRecognition k s else s.

(** [startSession] of render [k], up to its first [await]: the guard on the
    [status] of that render, the two status updates, the two audio contexts
    and the request for the microphone.  The callbacks later given to
    [ai.live.connect] are closures of render [k]. *)
Definition startSession (k : nat) (s : State) : State :=
  let status := h_status (hooksAt k s) in
  if bool_decide (status = CONNECTING) || bool_decide (status = CONNECTED)
  then s
  else
    let s := setStatus CONNECTING s in
    let s := setCurrentStatus waking s in
    let '(a, s) := fresh s in
    let s := set_callbacksOf (<[a := k]> (callbacksOf s)) s in
    let s := set_inputAudioCtxRef (Some a) (emit (AudioContextNew InputCtx a) s) in
    let s := set_outputAudioCtxRef (Some a) (emit (AudioContextNew OutputCtx a) s) in
    emit (GetUserMedia a) s.

(** [startSession] of attempt [a] once [getUserMedia] has resolved:
    [ai.live.connect] opens the channel and [sessionPromiseRef] is set. *)
Definition startSession_connect (a : nat) (s : State) : State :=
  set_sessionPromiseRef (Some a) (emit (LiveConnect a) s).

(** [sessionRef.current = await sessionPromise] *)
Definition startSession_resolved (a : nat) (s : State) : State :=
  set_sessionRef (Some a) s.

(** The [catch] block of [startSession]: [getUserMedia] or the connection
    was rejected. *)
Definition startSession_catch (s : State) : State :=
  let s := setStatus ERROR s in
  setCurrentStatus idle s.

(** The render whose closures the callbacks of attempt [a] are, and the
    [stopSession] they call. *)
Definition callbacksRender (a : nat) (s : State) : nat :=
  default 0%nat (callbacksOf s !! a).

Definition stopSessionOf (a : nat) (s : State) : nat :=
  h_stopSession (hooksAt (callbacksRender a s) s).

(** The callbacks given to [ai.live.connect] by attempt [a].  ([onopen]
    also wires the script processor that sends the microphone frames.) *)
Definition onopen (s : State) : State :=
  let s := setStatus CONNECTED s in
  let s := setCurrentStatus listening s in
  stopLocalRecognition s.

Definition onerror (a : nat) (s : State) : State :=
  let stop := stopSessionOf a s in
  let s := setStatus ERROR s in
  stopSession stop s.

Definition onclose (a : nat) (s : State) : State :=
  let stop := stopSessionOf a s in
  let s := setStatus DISCONNECTED s in
  stopSession stop s.

(** ** Inbound messages *)

(** [source.onended] of the buffer source [src]. *)
Definition onended (src : nat) (s : State) : State :=
  let s := set_sourcesRef (sourcesRef s ∖ {[src]}) s in
  if bool_decide (size (sourcesRef s) = 0%nat)
  then setCurrentStatus listening s
  else s.

(** The audio branch of [handleMessage], entered when the message carries
    audio and [outputAudioCtxRef.current] is set: [now] is
    [ctx.currentTime], [d] the duration of the decoded buffer. *)
Definition enqueue (now d : Q) (s : State) : State :=
  let s := setCurrentStatus speaking s in
  let s := set_nextStartTimeRef (Qmax (nextStartTimeRef s) now) s in
  let '(source, s) := fresh s in
  let s := emit (SourceStart source (nextStartTimeRef s) d) s in
  let s := set_nextStartTimeRef (nextStartTimeRef s + d)%Q s in
  set_sourcesRef ({[source]} ∪ sourcesRef s) s.

(** The exit phrases looked for in a lower-cased text. *)
Definition isExitCommand (lower : string) : bool :=
  includes lower "goodbye" || includes lower "sleep" || includes lower "stop session".

(** The input-transcription branch: [text] is the delta of the message,
    [stop] the render of the [stopSession] that the timer will call. *)
Definition onInputTranscription (stop : nat) (text : string) (s : State) : State :=
  let s := set_transcriptRef
             (mkDraft (input (transcriptRef s) ++ text) (output (transcriptRef s))) s in
  let lower := toLowerCase text in
  if isExitCommand lower then setTimeout (DelayedStop stop) 3000 s else s.

Definition onOutputTranscription (text : string) (s : State) : State :=
  set_transcriptRef
    (mkDraft (input (transcriptRef s)) (output (transcriptRef s) ++ text)) s.

(** The turn-complete branch; [wall] is [Date.now()], which the two
    records read one right after the other. *)
Definition onTurnComplete (wall : Z) (s : State) : State :=
  let '(mkDraft input output) := transcriptRef s in
  let s := if truthy input || truthy output
           then setTranscriptions
                  (transcriptions s ++
                     [mkTranscription input user wall;
                      mkTranscription output model wall]) s
           else s in
  set_transcriptRef (mkDraft "" "") s.

(** The interrupted branch. *)
Definition onInterrupted (s : State) : State :=
  let s := emit (SourcesStop (sourcesRef s)) s in
  let s := set_sourcesRef ∅ s in
  let s := set_nextStartTimeRef 0%Q s in
  setCurrentStatus listening s.

(** [handleMessage] of a render whose [stopSession] is that of render
    [stop]: the five branches in the order of the source.  A message is
    handled to its end before the next one is delivered. *)
Definition handleMessage (stop : nat) (now : Q) (wall : Z)
    (message : LiveServerMessage) (s : State) : State :=
  let s := match audioData message, outputAudioCtxRef s with
           | Some d, Some _ => enqueue now d s
           | _, _ => s
           end in
  let s := match inputTranscription message with
           | Some text => onInputTranscription stop text s
           | None => s
           end in
  let s := match outputTranscription message with
           | Some text => onOutputTranscription text s
           | None => s
           end in
  let s := if turnComplete message then onTurnComplete wall s else s in
  if interrupted message then onInterrupted s else s.

(** ** The recogniser's callbacks and the timers *)

Definition isWakePhrase (transcript : string) : bool :=
  includes transcript "wake up" || (includes transcript "hey" && includes transcript "eva").

(** The render whose closures the callbacks of recogniser [r] are. *)
Definition recognitionRender (r : nat) (s : State) : nat :=
  default 0%nat (recognitionOf s !! r).

(** [recognition.onresult] of recogniser [r]; [result] is the transcript
    of the last result.  The [startSession] it calls is the one its render
    got from [useCallback]. *)
Definition recognition_onresult (r : nat) (result : string) (s : State) : State :=
  let transcript := toLowerCase result in
  if isWakePhrase transcript
  then startSession (h_startSession (hooksAt (recognitionRender r s) s)) s
  else s.

(** [recognition.onerror] of recogniser [r]. *)
Definition recognition_onerror (r : nat) (s : State) : State :=
  let isHandsFree := h_isHandsFree (hooksAt (recognitionRender r s) s) in
  if isHandsFree then setTimeout (RecognitionRestart r) 1000 s else s.

(** [recognition.onend] of recogniser [r]. *)
Definition recognition_onend (r : nat) (s : State) : State :=
  let isHandsFree := h_isHandsFree (hooksAt (recognitionRender r s) s) in
  let status := h_status (hooksAt (recognitionRender r s) s) in
  if isHandsFree && bool_decide (status = DISCONNECTED)
  then emit (RecognitionStart r) s
  else s.

(** The [i]-th pending timer fires: it leaves the pending list and its
    callback runs.  The source never calls [clearTimeout]. *)
Definition fireTimer (i : nat) (s : State) : State :=
  match timers s !! i with
  | None => s
  | Some (_, cb) =>
      let s := set_timers (delete i (timers s)) s in
      match cb with
      | DelayedStop k => stopSession k s
      | RecognitionRestart r => emit (RecognitionStart r) s
      end
  end.

(** ** Renders *)

(** The body of the wake-word [useEffect] in render [k]. *)
Definition wakeEffect (k : nat) (s : State) : State :=
  if isHandsFree s && bool_decide (status s = DISCONNECTED)
  then initLocalRecognition k s
  else if negb (isHandsFree s) then stopLocalRecognition s
  else s.

(** The render that follows a callback.  When neither [status] nor
    [isHandsFree] changed, [useCallback] returns the functions it returned
    before and the effect does not run.  Otherwise the render is recorded:
    [startSession] is new when [status] changed, [stopSession] is new when
    [isHandsFree] changed; the clean-up of the previous effect runs, then
    the effect. *)
Definition afterRender (s : State) : State :=
  let prev := hooksAt (currentRender s) s in
  if bool_decide (h_status prev = status s ∧ h_isHandsFree prev = isHandsFree s)
  then s
  else
    let k := length (renders s) in
    let hooks :=
      mkHooks (status s) (isHandsFree s)
        (if decide (h_status prev = status s) then h_startSession prev else k)
        (if decide (h_isHandsFree prev = isHandsFree s) then h_stopSession prev else k) in
    let s := set_renders (renders s ++ [hooks]) s in
    wakeEffect k (stopLocalRecognition s).

(** ** Events *)

Inductive Event :=
| ClickPower                       (* the connect / disconnect button *)
| ToggleHandsFree                  (* the hands-free button *)
| MicrophoneGranted (a : nat)      (* getUserMedia of attempt a resolved *)
| StartRejected (a : nat)          (* getUserMedia or the connection of a rejected *)
| SessionResolved (a : nat)        (* await sessionPromise of attempt a resolved *)
| ChannelOpen (a : nat)            (* callbacks.onopen *)
| ChannelError (a : nat)           (* callbacks.onerror *)
| ChannelClose (a : nat)           (* callbacks.onclose *)
| Message (a : nat) (now : Q) (wall : Z) (m : LiveServerMessage)  (* callbacks.onmessage *)
| SourceEnded (src : nat)          (* source.onended *)
| TimerFired (i : nat)             (* the i-th pending setTimeout callback *)
| RecognitionResult (r : nat) (result : string)
| RecognitionError (r : nat)
| RecognitionEnd (r : nat).

(** The button of the current render: disabled while connecting,
    [stopSession] when connected, [startSession] otherwise. *)
Definition clickPower (s : State) : State :=
  let hooks := hooksAt (currentRender s) s in
  match h_status hooks with
  | CONNECTING => s
  | CONNECTED => stopSession (h_stopSession hooks) s
  | _ => startSession (h_startSession hooks) s
  end.

(** [() => setIsHandsFree(!isHandsFree)] of the current render. *)
Definition toggleHandsFree (s : State) : State :=
  setIsHandsFree (negb (h_isHandsFree (hooksAt (currentRender s) s))) s.

Definition handle (e : Event) (s : State) : State :=
  match e with
  | ClickPower => clickPower s
  | ToggleHandsFree => toggleHandsFree s
  | MicrophoneGranted a => startSession_connect a s
  | StartRejected a => startSession_catch s
  | SessionResolved a => startSession_resolved a s
  | ChannelOpen a => onopen s
  | ChannelError a => onerror a s
  | ChannelClose a => onclose a s
  | Message a now wall m => handleMessage (stopSessionOf a s) now wall m s
  | SourceEnded src => onended src s
  | TimerFired i => fireTimer i s
  | RecognitionResult r result => recognition_onresult r result s
  | RecognitionError r => recognition_onerror r s
  | RecognitionEnd r => recognition_onend r s
  end.

(** One event: its callback, then the render it causes. *)
Definition step (s : State) (e : Event) : State :=
  afterRender (handle e s).

Definition run (s : State) (es : list Event) : State :=
  fold_left step es s.

(** Messages with a single field set. *)
Definition audioChunk (d : Q) : LiveServerMessage := mkMessage (Some d) None None false false.
Definition inputDelta (t : string) : LiveServerMessage := mkMessage None (Some t) None false false.
Definition outputDelta (t : string) : LiveServerMessage := mkMessage None None (Some t) false false.
Definition turnCompleteMessage : LiveServerMessage := mkMessage None None None true false.
Definition interruptedMessage : LiveServerMessage := mkMessage None None None false true.

(** Attempt [a] brought up with the button: the microphone is granted, the
    channel opens, the session promise resolves. *)
Definition connect (a : nat) : list Event :=
  [ClickPower; MicrophoneGranted a; ChannelOpen a; SessionResolved a].

(** ** Observations used by the properties *)

(** The cells agree with the latest render: no render is due.  This holds
    when the component is mounted and after every event. *)
Definition rendered (s : State) : Prop :=
  h_status (hooksAt (currentRender s) s) = status s ∧
  h_isHandsFree (hooksAt (currentRender s) s) = isHandsFree s.

(** The segments handed to [source.start], as (start time, duration), in
    the order they were scheduled. *)
Definition segments (tr : list Effect) : list (Q * Q) :=
  omap (fun e => match e with
                 | SourceStart _ t d => Some (t, d)
                 | _ => None
                 end) tr.

(** The segments scheduled on the way from [s] to [s']. *)
Definition scheduledSince (s s' : State) : list (Q * Q) :=
  drop (length (segments (trace s))) (segments (trace s')).

(** A delivery of the channel: the clock readings and the message. *)
Definition Delivery : Type := Q * Z * LiveServerMessage.

(** The delivery [x] on the channel of attempt [a]. *)
Definition deliver (a : nat) (x : Delivery) : Event := Message a x.1.1 x.1.2 x.2.

(** The audio chunks among deliveries: (clock on arrival, duration). *)
Definition chunks (ms : list Delivery) : list (Q * Q) :=
  omap (fun x : Delivery => (fun d => (x.1.1, d)) <$> audioData x.2) ms.

(** The schedule in the words of the specification of [enqueue]: a segment
    starts at [max(nextPlaybackTime, outputClockNow())], and
    [nextPlaybackTime] advances to the end of the segment. *)
Fixpoint spec_schedule (nextPlaybackTime : Q) (arrivals : list (Q * Q)) : list (Q * Q) :=
  match arrivals with
  | [] => []
  | (outputClockNow, duration) :: rest =>
      let startTime := Qmax nextPlaybackTime outputClockNow in
      (startTime, duration) :: spec_schedule (startTime + duration)%Q rest
  end.

(** [before a b]: segment [b] starts no earlier than [a] starts, and no
    earlier than [a] ends. *)
Definition before (a b : Q * Q) : Prop :=
  (a.1 <= b.1)%Q ∧ (a.1 + a.2 <= b.1)%Q.

(** What a delivery must satisfy for the schedule to stay gapless: it is no
    interruption, and a decoded buffer has no negative duration. *)
Definition plainDelivery (x : Delivery) : Prop :=
  interrupted x.2 = false ∧ ∀ d, audioData x.2 = Some d → (0 <= d)%Q.

Definition isDelayedStop (t : Z * TimerAction) : bool :=
  match t.2 with DelayedStop _ => true | RecognitionRestart _ => false end.

Definition isLiveConnect (e : Effect) : bool :=
  match e with LiveConnect _ => true | _ => false end.

Definition isSessionClose (e : Effect) : bool :=
  match e with SessionClose _ => true | _ => false end.

Definition isRecognitionStart (e : Effect) : bool :=
  match e with RecognitionStart _ => true | _ => false end.

(** The delayed stops that are pending. *)
Definition pendingStops (s : State) : nat :=
  length (List.filter isDelayedStop (timers s)).

(** The channels opened so far. *)
Definition openAttempts (tr : list Effect) : nat :=
  length (List.filter isLiveConnect tr).

(** The channels closed so far. *)
Definition sessionCloses (tr : list Effect) : nat :=
  length (List.filter isSessionClose tr).

(** The recognisers started so far. *)
Definition recognitionStarts (tr : list Effect) : nat :=
  length (List.filter isRecognitionStart tr).

(** The hook cells, the references and the pending timers of a state,
    without the record of the platform calls made so far. *)
Definition cells (s : State) : State := set_trace [] s.

(** An input-transcript delta as the channel of attempt [a] delivers it. *)
Definition deliverInput (a : nat) (x : Q * Z * string) : Event :=
  Message a x.1.1 x.1.2 (inputDelta x.2).

(** The draft as it stands when the turn-complete branch of a message
    runs: the deltas of the same message are already appended. *)
Definition draftAt (m : LiveServerMessage) (s : State) : Draft :=
  mkDraft
    (match inputTranscription m with
     | Some t => input (transcriptRef s) ++ t
     | None => input (transcriptRef s)
     end)
    (match outputTranscription m with
     | Some t => output (transcriptRef s) ++ t
     | None => output (transcriptRef s)
     end).

(** A live session (attempt 0) on a freshly mounted component, hands-free
    off. *)
Definition liveSession : State := run (initialState true) (connect 0).

(** Hands-free on, one session (attempt 1) brought up and stopped with the
    button and its channel closed, then a second session (attempt 4)
    brought up by the wake phrase heard by recogniser 3. *)
Definition secondHandsFreeSession : State :=
  run (initialState true)
    ([ToggleHandsFree] ++ connect 1 ++ [ClickPower; ChannelClose 1] ++
     [RecognitionResult 3 "wake up"; MicrophoneGranted 4; ChannelOpen 4;
      SessionResolved 4]).

(** The statements of [stopSession] before its last one, which restarts
    the wake-word recogniser: [stopSession k s] is
    [if isHandsFree then initLocalRecognition k (teardown s) else teardown s]
    (lemma [stopSession_teardown]). *)
Definition teardown (s : State) : State :=
  let s := match sessionRef s with
           | Some a => set_sessionRef None (emit (SessionClose a) s)
           | None => s
           end in
  let s := set_sessionPromiseRef None s in
  let s := match inputAudioCtxRef s with
           | Some c => emit (AudioContextClose InputCtx c) s
           | None => s
           end in
  let s := match outputAudioCtxRef s with
           | Some c => emit (AudioContextClose OutputCtx c) s
           | None => s
           end in
  let s := setStatus DISCONNECTED s in
  setCurrentStatus idle s.

(** ** The capture callback

    [processor.onaudioprocess] of [onopen]: the mean absolute amplitude of
    the frame decides how the visual status is updated.  Samples are
    rationals.  (The frame is then sent with [session.sendRealtimeInput];
    [createPcmBlob], which packs it, is not part of the sources at hand.) *)

(** [inputData.reduce((acc, val) => acc + Math.abs(val), 0) / inputData.length].
    For an empty frame the source computes 0/0, which is not greater than
    the threshold; here the quotient is 0, with the same outcome. *)
Definition volume (inputData : list Q) : Q :=
  (fold_left (fun acc val => acc + Qabs val) inputData 0
   / inject_Z (Z.of_nat (length inputData)))%Q.

(** [volume > 0.01] *)
Definition isActiveFrame (inputData : list Q) : bool :=
  negb (Qle_bool (volume inputData) (1 # 100)).

(** The updater handed to [setCurrentStatus]. *)
Definition captureStatus (inputData : list Q) (prev : VisualStatus) : VisualStatus :=
  if isActiveFrame inputData
  then (if decide (prev = speaking) then speaking else listening)
  else (if decide (prev = listening) then listening else prev).

Definition onaudioprocess (inputData : list Q) (s : State) : State :=
  setCurrentStatus (captureStatus inputData (currentStatus s)) s.

(** ** The face ([Visualizer]) *)

Definition getEyeHeight (status : VisualStatus) (blink : bool) : Z :=
  if decide (status = idle) then 2
  else if blink then 1
  else if decide (status = waking) then 8
  else if decide (status = listening) then 12
  else if decide (status = speaking) then 10
  else 10.

Definition getFaceColor (status : VisualStatus) : string :=
  if decide (status = speaking) then "text-blue-400"
  else if decide (status = listening) then "text-emerald-400"
  else if decide (status = waking) then "text-amber-400"
  else "text-gray-600".

Definition getGlowColor (status : VisualStatus) : string :=
  if decide (status = speaking) then "bg-blue-500/20 shadow-blue-500/40"
  else if decide (status = listening) then "bg-emerald-500/20 shadow-emerald-500/40"
  else if decide (status = waking) then "bg-amber-500/20 shadow-amber-500/40"
  else "bg-gray-800/20 shadow-transparent".

(** The height of an eye in pixels: [getEyeHeight() * 4]. *)
Definition eyePixels (status : VisualStatus) (blink : bool) : Z :=
  getEyeHeight status blink * 4.

(** ** The preferences panel ([Settings]) *)

(** [SupportedLanguage] and the voice names of types.ts. *)
Inductive SupportedLanguage :=
  English | Hindi | Hinglish | Spanish | French | German | Japanese | Chinese.

Inductive VoiceName := Zephyr | Puck | Charon | Kore | Fenrir.

#[global] Instance SupportedLanguage_eq_dec : EqDecision SupportedLanguage.
Proof. solve_decision. Defined.
#[global] Instance VoiceName_eq_dec : EqDecision VoiceName.
Proof. solve_decision. Defined.

Definition LANGUAGES : list SupportedLanguage :=
  [English; Hindi; Hinglish; Spanish; French; German; Japanese; Chinese].

(** The array the voice buttons are mapped from. *)
Definition VOICES : list VoiceName := [Zephyr; Puck; Charon; Kore; Fenrir].

(** What [Settings] renders: nothing when closed; otherwise one button per
    language and per voice, each with the value its click hands to
    [onLanguageChange] / [onVoiceChange] and whether it is drawn as
    selected. *)
Definition Settings (isOpen : bool) (voice : VoiceName) (language : SupportedLanguage)
    : option (list (SupportedLanguage * bool) * list (VoiceName * bool)) :=
  if negb isOpen then None
  else Some (map (fun lang => (lang, bool_decide (language = lang))) LANGUAGES,
             map (fun v => (v, bool_decide (voice = v))) VOICES).

(** ** What the page shows of the session *)




(** ** Observations used by the further properties *)

(** Segments that follow one another without a gap. *)
Fixpoint abutting (segs : list (Q * Q)) : Prop :=
  match segs with
  | a :: (b :: _) as rest => (b.1 == a.1 + a.2)%Q ∧ abutting rest
  | _ => True
  end.

(** Arrivals none of which finds the scheduler drained: each chunk arrives
    no later than the end of the segment scheduled before it. *)
Fixpoint bursty (nextPlaybackTime : Q) (arrivals : list (Q * Q)) : Prop :=
  match arrivals with
  | [] => True
  | (now, d) :: rest =>
      (now <= nextPlaybackTime)%Q ∧ bursty (Qmax nextPlaybackTime now + d)%Q rest
  end.


(** The transcript deltas of one side among events, in the order of
    arrival, and their text. *)
Definition inputDeltas (es : list Event) : list string :=
  omap (fun e => match e with
                 | Message _ _ _ m => inputTranscription m
                 | _ => None
                 end) es.

Definition outputDeltas (es : list Event) : list string :=
  omap (fun e => match e with
                 | Message _ _ _ m => outputTranscription m
                 | _ => None
                 end) es.

Definition joined (parts : list string) : string :=
  fold_right String.append "" parts.

(** The events whose clock readings and durations are not negative. *)
Definition soundEvent (e : Event) : Prop :=
  match e with
  | Message _ now _ m => (0 <= now)%Q ∧ ∀ d, audioData m = Some d → (0 <= d)%Q
  | _ => True
  end.

(** The events that are no interruption of the playback. *)
Definition notInterruption (e : Event) : Prop :=
  match e with
  | Message _ _ _ m => interrupted m = false
  | _ => True
  end.

(** The render table is coherent when every render's [startSession] and
    [stopSession] come from a render, not later than it, that saw the same
    [status], respectively the same [isHandsFree]. *)
Definition coherentTable (rs : list Hooks) : Prop :=
  rs ≠ [] ∧
  ∀ k h, rs !! k = Some h →
    (h_startSession h <= k)%nat ∧ (h_stopSession h <= k)%nat ∧
    h_status (default mountHooks (rs !! h_startSession h)) = h_status h ∧
    h_isHandsFree (default mountHooks (rs !! h_stopSession h)) = h_isHandsFree h.

Definition coherent (s : State) : Prop := coherentTable (renders s).

(** The states the component reaches from its mount. *)
Definition reachable (s : State) : Prop :=
  ∃ speech es, s = run (initialState speech) es.

Definition isGetUserMedia (e : Effect) : bool :=
  match e with GetUserMedia _ => true | _ => false end.

(** The requests for the microphone made so far. *)
Definition microphoneRequests (tr : list Effect) : nat :=
  length (List.filter isGetUserMedia tr).

Definition isMicrophoneGranted (e : Event) : bool :=
  match e with MicrophoneGranted _ => true | _ => false end.

Definition isSessionResolved (e : Event) : bool :=
  match e with SessionResolved _ => true | _ => false end.

(** The session [sessionRef] holds: one or none. *)
Definition held (s : State) : nat :=
  match sessionRef s with Some _ => 1 | None => 0 end.

(** The events that do not complete a turn. *)
Definition noTurnComplete (e : Event) : Prop :=
  match e with
  | Message _ _ _ m => turnComplete m = false
  | _ => True
  end.

(** The exit phrases of [handleMessage]. *)
Definition exitPhrases : list string := ["goodbye"; "sleep"; "stop session"].

(** [phrase] is heard in [text]: it occurs there, in any letter case. *)
Definition heard (text phrase : string) : Prop :=
  ∃ pre w post, text = (pre ++ w ++ post)%string ∧ toLowerCase w = phrase.

Definition isRecognitionEffect (e : Effect) : bool :=
  match e with
  | RecognitionStart _ | RecognitionStop _ => true
  | _ => false
  end.

(** The calls made on recognisers so far. *)
Definition recognitionEffects (tr : list Effect) : list Effect :=
  List.filter isRecognitionEffect tr.

Definition isTimerFired (e : Event) : bool :=
  match e with TimerFired _ => true | _ => false end.

(** No recogniser exists and none can be created: the platform lacks the
    SpeechRecognition API, nothing refers to a recogniser, and no call on
    one has been made. *)
Definition noRecogniser (s : State) : Prop :=
  speechRecognitionAvailable s = false ∧ localRecognitionRef s = None ∧
  recognitionOf s = ∅ ∧ renders s !! 0%nat = Some mountHooks ∧
  Forall (fun t => isDelayedStop t = true) (timers s) ∧
  recognitionEffects (trace s) = [].

(** The events other than the end of the source [x]. *)
Definition notEndOf (x : nat) (e : Event) : Prop :=
  match e with
  | SourceEnded src => src ≠ x
  | _ => True
  end.

(** * Properties *)

Section Frame.

#[local] Arguments Qmax : simpl never.
#[local] Arguments Qplus : simpl never.
#[local] Arguments isExitCommand : simpl never.
#[local] Arguments toLowerCase : simpl never.
#[local] Arguments truthy : simpl never.
#[local] Arguments String.append : simpl never.

Lemma setStatus_status v s : status (setStatus v s) = v.
Proof. unfold setStatus. case_decide; [assumption | reflexivity]. Qed.

Lemma setStatus_frame v s :
  trace (setStatus v s) = trace s ∧ timers (setStatus v s) = timers s ∧
  isHandsFree (setStatus v s) = isHandsFree s ∧
  renders (setStatus v s) = renders s ∧
  callbacksOf (setStatus v s) = callbacksOf s ∧
  currentStatus (setStatus v s) = currentStatus s ∧
  sourcesRef (setStatus v s) = sourcesRef s.
Proof. unfold setStatus. case_decide; repeat split. Qed.

Lemma setStatus_history v s :
  statusHistory (setStatus v s) =
    if decide (status s = v) then statusHistory s else statusHistory s ++ [v].
Proof. unfold setStatus. case_decide; reflexivity. Qed.

(** Case analysis on the fields of a message and on the cells the
    branches of [handleMessage] read. *)
Ltac message_cases m s :=
  destruct s as [? ? ? ? ? ? ? [?|] ? ? [? ?] ? ? ? ? ? ? ? ? ?];
  destruct m as [[?|] [?|] [?|] [|] [|]];
  unfold handleMessage, enqueue, onInputTranscription, onOutputTranscription,
    onTurnComplete, onInterrupted;
  simpl;
  repeat match goal with
    | |- context [if ?b then _ else _] => destruct b eqn:?; simpl in *
    end.

(** What a message leaves alone: the cells the renders depend on, the
    closures, and the references of the life cycle. *)
Lemma handleMessage_frame stop now wall m s :
  let s' := handleMessage stop now wall m s in
  status s' = status s ∧ isHandsFree s' = isHandsFree s ∧
  renders s' = renders s ∧ callbacksOf s' = callbacksOf s ∧
  outputAudioCtxRef s' = outputAudioCtxRef s ∧
  sessionRef s' = sessionRef s.
Proof. message_cases m s; repeat split. Qed.

Lemma rendered_afterRender s : rendered s → afterRender s = s.
Proof. intros H. unfold afterRender. rewrite bool_decide_true; [reflexivity | exact H]. Qed.

Lemma handleMessage_rendered stop now wall m s :
  rendered s → rendered (handleMessage stop now wall m s).
Proof.
  unfold rendered, hooksAt, currentRender.
  destruct (handleMessage_frame stop now wall m s) as (-> & -> & -> & _). tauto.
Qed.

Lemma handleMessage_stopSessionOf stop now wall m a s :
  stopSessionOf a (handleMessage stop now wall m s) = stopSessionOf a s.
Proof.
  unfold stopSessionOf, callbacksRender, hooksAt.
  destruct (handleMessage_frame stop now wall m s) as (_ & _ & -> & -> & _).
  reflexivity.
Qed.

Lemma step_Message a now wall m s :
  rendered s →
  step s (Message a now wall m) = handleMessage (stopSessionOf a s) now wall m s.
Proof. intros H. unfold step. simpl. now apply rendered_afterRender, handleMessage_rendered. Qed.

Lemma rendered_step_Message a now wall m s :
  rendered s → rendered (step s (Message a now wall m)).
Proof. intros H. rewrite step_Message by exact H. now apply handleMessage_rendered. Qed.

(** The playback schedule after one message that is no interruption. *)
Lemma handleMessage_schedule stop (x : Delivery) s :
  is_Some (outputAudioCtxRef s) →
  interrupted x.2 = false →
  let s' := handleMessage stop x.1.1 x.1.2 x.2 s in
  segments (trace s') =
    segments (trace s) ++ spec_schedule (nextStartTimeRef s) (chunks [x]) ∧
  nextStartTimeRef s' =
    match audioData x.2 with
    | Some d => (Qmax (nextStartTimeRef s) x.1.1 + d)%Q
    | None => nextStartTimeRef s
    end ∧
  sourcesRef s ⊆ sourcesRef s'.
Proof.
  destruct x as [[now wall] m]. unfold chunks, segments. cbn [fst snd].
  intros [c Hc] Hint.
  message_cases m s; simplify_eq;
    rewrite ?omap_app, ?app_nil_r; simpl; repeat split; set_solver.
Qed.

(** The transcript after a message. *)
Lemma handleMessage_transcript stop now wall m s :
  transcriptions (handleMessage stop now wall m s) =
    (if turnComplete m && (truthy (input (draftAt m s)) || truthy (output (draftAt m s)))
     then transcriptions s ++
            [mkTranscription (input (draftAt m s)) user wall;
             mkTranscription (output (draftAt m s)) model wall]
     else transcriptions s) ∧
  transcriptRef (handleMessage stop now wall m s) =
    (if turnComplete m then mkDraft "" "" else draftAt m s).
Proof.
  unfold draftAt. message_cases m s; try (split; reflexivity); try congruence.
Qed.

(** The timers a message adds: one delayed stop when the delta of the
    message holds an exit phrase. *)
Lemma handleMessage_timers stop now wall m s :
  timers (handleMessage stop now wall m s) =
    timers s ++
      match inputTranscription m with
      | Some text =>
          if isExitCommand (toLowerCase text) then [(3000%Z, DelayedStop stop)] else []
      | None => []
      end.
Proof.
  message_cases m s; rewrite ?app_nil_r; try reflexivity; congruence.
Qed.

End Frame.

Section Playback.

(** Every segment of a schedule starts at or after the time the scheduler
    had reached. *)
Lemma spec_schedule_lower_bound arrivals :
  Forall (fun a : Q * Q => (0 <= a.2)%Q) arrivals →
  ∀ next, Forall (fun seg : Q * Q => (next <= seg.1)%Q) (spec_schedule next arrivals).
Proof.
  induction 1 as [|[now d] rest Hd _ IH]; intros next; simpl; constructor.
  - simpl. apply Q.le_max_l.
  - eapply Forall_impl; [apply IH|]. simpl in *. intros seg Hseg.
    pose proof (Q.le_max_l next now). lra.
Qed.

Lemma spec_schedule_sorted arrivals :
  Forall (fun a : Q * Q => (0 <= a.2)%Q) arrivals →
  ∀ next, StronglySorted before (spec_schedule next arrivals).
Proof.
  induction 1 as [|[now d] rest Hd Hrest IH]; intros next; simpl; constructor.
  - apply IH.
  - eapply Forall_impl; [apply spec_schedule_lower_bound, Hrest|].
    intros seg Hseg. unfold before. simpl in *. lra.
Qed.

Lemma chunks_nonneg ms :
  Forall plainDelivery ms → Forall (fun a : Q * Q => (0 <= a.2)%Q) (chunks ms).
Proof.
  induction 1 as [|[[now wall] m] ms [_ Hd] _ IH]; unfold chunks; simpl; [constructor|].
  simpl in Hd. destruct (audioData m) as [d|]; simpl; [constructor|]; auto.
Qed.

(** The schedule after a run of deliveries on one channel. *)
Lemma run_schedule a ms :
  Forall plainDelivery ms →
  ∀ s, rendered s → is_Some (outputAudioCtxRef s) →
  segments (trace (run s (map (deliver a) ms))) =
    segments (trace s) ++ spec_schedule (nextStartTimeRef s) (chunks ms).
Proof.
  induction 1 as [|x ms [Hint Hd] _ IH]; intros s Hr Hctx; simpl.
  - now rewrite app_nil_r.
  - unfold deliver at 1.
    pose proof (rendered_step_Message a x.1.1 x.1.2 x.2 s Hr) as Hr'.
    rewrite step_Message in Hr' |- * by exact Hr.
    set (stop := stopSessionOf a s) in *.
    destruct (handleMessage_schedule stop x s Hctx Hint) as (Hseg & Hnext & _).
    destruct (handleMessage_frame stop x.1.1 x.1.2 x.2 s) as (_ & _ & _ & _ & Hout & _).
    rewrite IH by (rewrite ?Hout; assumption).
    rewrite Hseg, Hnext, <- app_assoc. f_equal.
    destruct x as [[now wall] m]. unfold chunks. simpl in *.
    destruct (audioData m); reflexivity.
Qed.

(** C1.  Over any run of deliveries on a channel that carries no
    interruption (audio chunks of non-negative duration, possibly mixed
    with transcript and turn-complete messages), the segments handed to
    [source.start] are exactly those of the specified [enqueue]: each
    starts at the maximum of the scheduler's next start time and the
    output clock, and the next start time becomes that start plus the
    duration.  Start times never decrease and no segment starts before an
    earlier one has ended. *)
Theorem playback_segments_never_overlap (a : nat) (s : State) (ms : list Delivery) :
  rendered s →
  is_Some (outputAudioCtxRef s) →
  Forall plainDelivery ms →
  let s' := run s (map (deliver a) ms) in
  scheduledSince s s' = spec_schedule (nextStartTimeRef s) (chunks ms) ∧
  StronglySorted before (scheduledSince s s').
Proof.
  intros Hr Hctx Hms s'. subst s'. unfold scheduledSince.
  rewrite (run_schedule a ms Hms s Hr Hctx), drop_app_length.
  split; [reflexivity|]. apply spec_schedule_sorted, chunks_nonneg, Hms.
Qed.

Lemma playback_segments_never_overlap_witness :
  let ms : list Delivery :=
    [((1 # 2)%Q, 5%Z, audioChunk (1 # 2)); ((3 # 5)%Q, 6%Z, audioChunk (1 # 2))] in
  rendered liveSession ∧
  is_Some (outputAudioCtxRef liveSession) ∧
  Forall plainDelivery ms ∧
  scheduledSince liveSession (run liveSession (map (deliver 0) ms)) =
    spec_schedule (nextStartTimeRef liveSession) (chunks ms) ∧
  StronglySorted before (scheduledSince liveSession (run liveSession (map (deliver 0) ms))).
Proof.
  assert (Hr : rendered liveSession) by (vm_compute; split; reflexivity).
  assert (Hctx : is_Some (outputAudioCtxRef liveSession)) by (vm_compute; eauto).
  assert (Hms : Forall plainDelivery
                  [((1 # 2)%Q, 5%Z, audioChunk (1 # 2));
                   ((3 # 5)%Q, 6%Z, audioChunk (1 # 2))]).
  { repeat (constructor;
              [split; [reflexivity | intros d [= <-]; unfold Qle; simpl; lia] |]).
    constructor. }
  split; [exact Hr|]. split; [exact Hctx|]. split; [exact Hms|].
  exact (playback_segments_never_overlap 0 liveSession _ Hr Hctx Hms).
Defined.

(** The two half-second chunks of the end-to-end scenario: the second
    segment starts exactly where the first one ends. *)
Example two_chunks_back_to_back :
  scheduledSince liveSession
    (run liveSession [Message 0 (1 # 2) 5 (audioChunk (1 # 2));
                      Message 0 (1 # 2) 5 (audioChunk (1 # 2))]) =
    [((1 # 2)%Q, (1 # 2)%Q); ((4 # 4)%Q, (1 # 2)%Q)].
Proof. vm_compute. reflexivity. Qed.

(** A message with the interrupted flag: the other branches run first, the
    interrupted branch last. *)
Lemma handleMessage_interrupted stop now wall m s :
  interrupted m = true →
  handleMessage stop now wall m s =
    onInterrupted
      (handleMessage stop now wall
         (mkMessage (audioData m) (inputTranscription m) (outputTranscription m)
            (turnComplete m) false) s).
Proof. intros Hint. unfold handleMessage. rewrite Hint. reflexivity. Qed.

Lemma onInterrupted_resets s :
  trace (onInterrupted s) = trace s ++ [SourcesStop (sourcesRef s)] ∧
  sourcesRef (onInterrupted s) = ∅ ∧
  nextStartTimeRef (onInterrupted s) = 0%Q ∧
  currentStatus (onInterrupted s) = listening.
Proof. unfold onInterrupted. simpl. tauto. Qed.

(** C2.  A message with the interrupted flag stops every source of the
    playback set (those playing before the message among them), empties the
    set and resets the next start time to 0.  The audio chunk of the next
    message is then scheduled at the reading of the output clock on its
    arrival, whatever the next start time was before the interruption. *)
Theorem enqueue_after_interrupt_starts_now
    (a : nat) (s : State) (x y : Delivery) (d : Q) :
  rendered s →
  is_Some (outputAudioCtxRef s) →
  interrupted x.2 = true →
  audioData y.2 = Some d →
  interrupted y.2 = false →
  (0 <= y.1.1)%Q →
  let s1 := step s (deliver a x) in
  let s2 := step s1 (deliver a y) in
  (∃ stopped, last (trace s1) = Some (SourcesStop stopped) ∧ sourcesRef s ⊆ stopped) ∧
  sourcesRef s1 = ∅ ∧
  nextStartTimeRef s1 = 0%Q ∧
  ∃ startTime, scheduledSince s1 s2 = [(startTime, d)] ∧ (startTime == y.1.1)%Q.
Proof.
  intros Hr Hctx Hx Hd Hy Hnow s1 s2. subst s2 s1. unfold deliver.
  pose proof (rendered_step_Message a x.1.1 x.1.2 x.2 s Hr) as Hr1.
  pose proof (handleMessage_frame (stopSessionOf a s) x.1.1 x.1.2 x.2 s)
    as (_ & _ & _ & _ & Hout & _).
  rewrite (step_Message a _ _ _ _ Hr1).
  rewrite (step_Message a _ _ _ s Hr) in *.
  set (stop := stopSessionOf a s) in *.
  set (stop1 := stopSessionOf a _).
  destruct x as [[now0 wall0] m0], y as [[now wall] m]. cbn [fst snd] in *.
  assert (Hctx1 : is_Some (outputAudioCtxRef (handleMessage stop now0 wall0 m0 s)))
    by (rewrite Hout; exact Hctx).
  revert Hctx1. clear Hr1 Hout. clearbody stop1.
  rewrite (handleMessage_interrupted stop now0 wall0 m0 s Hx).
  set (m0' := mkMessage _ _ _ _ false).
  set (s0 := handleMessage stop now0 wall0 m0' s).
  destruct (onInterrupted_resets s0) as (Htr & Hsrc & Hnext & _).
  intros Hctx1. split.
  { exists (sourcesRef s0). split.
    - rewrite Htr. apply last_snoc.
    - subst s0. apply (handleMessage_schedule stop (now0, wall0, m0') s Hctx eq_refl). }
  split; [exact Hsrc|]. split; [exact Hnext|].
  exists (Qmax 0 now). split.
  - unfold scheduledSince.
    destruct (handleMessage_schedule stop1 (now, wall, m) _ Hctx1 Hy) as (E & _).
    cbn [fst snd] in E. rewrite E, drop_app_length, Hnext.
    unfold chunks. cbn [omap list_omap fst snd]. rewrite Hd. reflexivity.
  - apply Q.max_r. exact Hnow.
Qed.

Lemma enqueue_after_interrupt_starts_now_witness :
  let s := run liveSession [Message 0 (1 # 2) 5 (audioChunk 30)] in
  let x : Delivery := (1%Q, 6%Z, interruptedMessage) in
  let y : Delivery := (2%Q, 7%Z, audioChunk (1 # 2)) in
  nextStartTimeRef s = ((1 # 2) + 30)%Q ∧
  ∃ startTime,
    scheduledSince (step s (deliver 0 x)) (step (step s (deliver 0 x)) (deliver 0 y)) =
      [(startTime, (1 # 2)%Q)] ∧
    (startTime == 2)%Q.
Proof.
  split; [vm_compute; reflexivity|].
  refine (proj2 (proj2 (proj2
    (enqueue_after_interrupt_starts_now 0
       (run liveSession [Message 0 (1 # 2) 5 (audioChunk 30)])
       (1%Q, 6%Z, interruptedMessage) (2%Q, 7%Z, audioChunk (1 # 2)) (1 # 2)
       _ _ _ _ _ _)))).
  - vm_compute; split; reflexivity.
  - vm_compute; eauto.
  - reflexivity.
  - reflexivity.
  - reflexivity.
  - unfold Qle; simpl; lia.
Defined.

End Playback.

Section Transcript.

(** C3 (as the code has it).  A message with the turn-complete flag
    appends two records to the history, the user's with the accumulated
    input text and then the model's with the accumulated output text,
    when at least one of the two texts is not empty; when both are empty
    it appends nothing.  In both cases the draft is reset to two empty
    strings. *)
Theorem turn_complete_emits_pair_unless_empty
    (a : nat) (now : Q) (wall : Z) (m : LiveServerMessage) (s : State) :
  rendered s →
  turnComplete m = true →
  let d := draftAt m s in
  let s' := step s (Message a now wall m) in
  transcriptRef s' = mkDraft "" "" ∧
  (d ≠ mkDraft "" "" →
   transcriptions s' =
     transcriptions s ++
       [mkTranscription (input d) user wall; mkTranscription (output d) model wall]) ∧
  (d = mkDraft "" "" → transcriptions s' = transcriptions s).
Proof.
  intros Hr Htc d s'. subst s'. rewrite step_Message by exact Hr.
  destruct (handleMessage_transcript (stopSessionOf a s) now wall m s) as [Htr Hdraft].
  rewrite Htc in Htr, Hdraft. fold d in Htr. cbn [andb] in Htr.
  split; [exact Hdraft|]. rewrite Htr. clearbody d.
  destruct d as [[|c i] [|c' o]]; unfold truthy; cbn [orb input output];
    split; intros H; congruence.
Qed.

(** The draft [{input: "hi", output: ""}] of the specification's test. *)
Lemma turn_complete_emits_pair_unless_empty_witness :
  let s := run liveSession [Message 0 0 0 (inputDelta "hi")] in
  let s' := step s (Message 0 0 7 turnCompleteMessage) in
  turnComplete turnCompleteMessage = true ∧
  transcriptRef s' = mkDraft "" "" ∧
  transcriptions s' = [mkTranscription "hi" user 7; mkTranscription "" model 7].
Proof.
  assert (Hr : rendered (run liveSession [Message 0 0 0 (inputDelta "hi")]))
    by (vm_compute; split; reflexivity).
  pose proof (turn_complete_emits_pair_unless_empty 0 0 7 turnCompleteMessage
                (run liveSession [Message 0 0 0 (inputDelta "hi")])
                Hr eq_refl) as (H1 & H2 & _).
  split; [reflexivity|]. split; [exact H1|].
  rewrite H2 by (vm_compute; discriminate).
  vm_compute. reflexivity.
Defined.

(** A whole turn: deltas of both sides, then the turn-complete signal. *)
Example full_turn_emits_user_then_model :
  transcriptions
    (run liveSession
       [Message 0 0 1 (inputDelta "wie "); Message 0 0 2 (outputDelta "gut, ");
        Message 0 0 3 (inputDelta "geht's?"); Message 0 0 4 (outputDelta "danke");
        Message 0 0 5 turnCompleteMessage]) =
    [mkTranscription "wie geht's?" user 5; mkTranscription "gut, danke" model 5].
Proof. vm_compute. reflexivity. Qed.

(** C3, as stated, fails: a turn-complete signal on an empty draft leaves
    the history as it was. *)
Lemma turn_complete_on_empty_draft_emits_nothing :
  transcriptRef liveSession = mkDraft "" "" ∧
  transcriptions liveSession = [] ∧
  transcriptions (step liveSession (Message 0 0 7 turnCompleteMessage)) = [].
Proof. vm_compute. repeat split. Qed.

End Transcript.

Section CommandDetector.

(** C4 (as the code has it).  On an input-transcript delta the detector
    lower-cases the delta of that message alone and looks in it for
    "goodbye", "sleep" and "stop session"; exactly when one of them occurs
    in the delta a stop is scheduled 3000 ms later.  The text accumulated in
    the draft plays no part. *)
Theorem exit_phrase_is_sought_in_the_delta
    (a : nat) (now : Q) (wall : Z) (m : LiveServerMessage) (s : State) :
  rendered s →
  timers (step s (Message a now wall m)) =
    timers s ++
      match inputTranscription m with
      | Some text =>
          let lower := toLowerCase text in
          if includes lower "goodbye" || includes lower "sleep"
             || includes lower "stop session"
          then [(3000%Z, DelayedStop (stopSessionOf a s))]
          else []
      | None => []
      end.
Proof. intros Hr. rewrite step_Message by exact Hr. apply handleMessage_timers. Qed.

Lemma exit_phrase_is_sought_in_the_delta_witness :
  timers (step liveSession (Message 0 0 0 (inputDelta "Stop Session please"))) =
    [(3000%Z, DelayedStop 0)].
Proof.
  rewrite exit_phrase_is_sought_in_the_delta by (vm_compute; split; reflexivity).
  vm_compute. reflexivity.
Defined.

(** C4, as stated, fails: "good" then "bye" accumulate to "goodbye" in the
    draft, and no stop is scheduled. *)
Lemma exit_phrase_split_across_deltas_is_missed :
  let s := run liveSession [Message 0 0 0 (inputDelta "good");
                            Message 0 0 0 (inputDelta "bye")] in
  input (transcriptRef s) = "goodbye" ∧
  isExitCommand (toLowerCase (input (transcriptRef s))) = true ∧
  timers s = [].
Proof. vm_compute. repeat split. Qed.

(** C5 (as the code has it).  Every input delta that holds an exit phrase
    schedules a delayed stop of its own, 3000 ms later, whether or not one
    is already pending: over a run of input deltas the pending timers grow
    by one delayed stop for each delta that matches. *)
Theorem every_match_schedules_a_delayed_stop
    (a : nat) (deltas : list (Q * Z * string)) (s : State) :
  rendered s →
  let matching :=
    List.filter (fun x : Q * Z * string => isExitCommand (toLowerCase x.2)) deltas in
  let s' := run s (map (deliverInput a) deltas) in
  timers s' =
    timers s ++ map (fun _ => (3000%Z, DelayedStop (stopSessionOf a s))) matching ∧
  pendingStops s' = (pendingStops s + length matching)%nat.
Proof.
  intros Hr matching s'. subst matching s'.
  assert (Htimers : ∀ deltas s, rendered s →
    timers (run s (map (deliverInput a) deltas)) =
      timers s ++
        map (fun _ => (3000%Z, DelayedStop (stopSessionOf a s)))
          (List.filter (fun x : Q * Z * string => isExitCommand (toLowerCase x.2)) deltas)).
  { clear. induction deltas as [|[[now wall] text] deltas IH]; intros s Hr; simpl.
    - now rewrite app_nil_r.
    - unfold deliverInput at 1. cbn [fst snd].
      rewrite IH by now apply rendered_step_Message.
      rewrite step_Message by exact Hr.
      rewrite handleMessage_stopSessionOf, handleMessage_timers.
      cbn [inputTranscription inputDelta].
      destruct (isExitCommand (toLowerCase text)); simpl.
      + now rewrite <- app_assoc.
      + now rewrite app_nil_r. }
  split; [now apply Htimers|].
  unfold pendingStops. rewrite Htimers by exact Hr.
  rewrite List.filter_app, length_app. f_equal.
  induction (List.filter _ deltas) as [|x l IH]; simpl; [reflexivity|].
  now rewrite IH.
Qed.

Lemma every_match_schedules_a_delayed_stop_witness :
  timers
    (run liveSession
       (map (deliverInput 0)
          [(0%Q, 0%Z, "Goodbye"); (0%Q, 0%Z, "see you"); (0%Q, 0%Z, "go to sleep")])) =
    [(3000%Z, DelayedStop 0); (3000%Z, DelayedStop 0)].
Proof.
  rewrite (proj1 (every_match_schedules_a_delayed_stop 0
                    [(0%Q, 0%Z, "Goodbye"); (0%Q, 0%Z, "see you");
                     (0%Q, 0%Z, "go to sleep")]
                    liveSession ltac:(vm_compute; split; reflexivity))).
  vm_compute. reflexivity.
Defined.

(** C5, as stated, fails: a second match before the first stop has fired
    leaves two delayed stops pending. *)
Lemma second_match_schedules_a_second_stop :
  timers (run liveSession [Message 0 0 0 (inputDelta "Goodbye");
                           Message 0 0 0 (inputDelta "go to sleep")]) =
    [(3000%Z, DelayedStop 0); (3000%Z, DelayedStop 0)].
Proof. vm_compute. reflexivity. Qed.

(** The deltas "hel", "lo goodbye" of the specification's test: one match,
    one delayed stop. *)
Example hello_goodbye_schedules_one_stop :
  timers (run liveSession
            (map (deliverInput 0) [(0%Q, 0%Z, "hel"); (0%Q, 0%Z, "lo goodbye")])) =
    [(3000%Z, DelayedStop 0)].
Proof. vm_compute. reflexivity. Qed.

End CommandDetector.

Section Lifecycle.

Lemma filter_snoc {A} (f : A → bool) l x :
  length (List.filter f (l ++ [x])) =
    (length (List.filter f l) + if f x then 1 else 0)%nat.
Proof. rewrite List.filter_app, length_app. simpl. now destruct (f x). Qed.

Lemma stopSession_teardown k s :
  stopSession k s =
    if h_isHandsFree (hooksAt k s) then initLocalRecognition k (teardown s)
    else teardown s.
Proof. reflexivity. Qed.

(** Cases on the references and on the status that [teardown] reads. *)
Ltac teardown_cases s :=
  unfold teardown, setStatus, emit;
  destruct (sessionRef s) eqn:?; simpl;
  destruct (inputAudioCtxRef s) eqn:?; simpl;
  destruct (outputAudioCtxRef s) eqn:?; simpl;
  case_decide; simpl.

Lemma teardown_post s :
  status (teardown s) = DISCONNECTED ∧
  currentStatus (teardown s) = idle ∧
  sessionRef (teardown s) = None ∧
  sessionPromiseRef (teardown s) = None.
Proof. teardown_cases s; repeat split; assumption. Qed.

Lemma teardown_frame s :
  timers (teardown s) = timers s ∧
  sourcesRef (teardown s) = sourcesRef s ∧
  renders (teardown s) = renders s ∧
  nextId (teardown s) = nextId s ∧
  localRecognitionRef (teardown s) = localRecognitionRef s ∧
  speechRecognitionAvailable (teardown s) = speechRecognitionAvailable s.
Proof. teardown_cases s; repeat split. Qed.

Lemma teardown_trace s :
  sessionCloses (trace (teardown s)) =
    (sessionCloses (trace s) + match sessionRef s with Some _ => 1 | None => 0 end)%nat ∧
  recognitionStarts (trace (teardown s)) = recognitionStarts (trace s).
Proof.
  unfold sessionCloses, recognitionStarts.
  teardown_cases s; rewrite ?filter_snoc; simpl; split; lia.
Qed.

Lemma teardown_history s :
  statusHistory (teardown s) =
    statusHistory s ++ if decide (status s = DISCONNECTED) then [] else [DISCONNECTED].
Proof.
  teardown_cases s; rewrite ?app_nil_r; try reflexivity;
    rewrite decide_False by assumption; reflexivity.
Qed.

(** A torn-down session is torn down again without a change of a cell. *)
Lemma teardown_again s :
  status s = DISCONNECTED → currentStatus s = idle →
  sessionRef s = None → sessionPromiseRef s = None →
  cells (teardown s) = cells s.
Proof.
  destruct s. simpl. intros -> -> -> ->.
  unfold teardown, setStatus, emit, cells. simpl.
  repeat match goal with
    | |- context [match ?x with Some _ => _ | None => _ end] => destruct x; simpl
    end; reflexivity.
Qed.

Lemma initLocalRecognition_frame k s :
  let s' := initLocalRecognition k s in
  status s' = status s ∧ currentStatus s' = currentStatus s ∧
  sessionRef s' = sessionRef s ∧ sessionPromiseRef s' = sessionPromiseRef s ∧
  timers s' = timers s ∧ sourcesRef s' = sourcesRef s ∧
  renders s' = renders s ∧ statusHistory s' = statusHistory s ∧
  sessionCloses (trace s') = sessionCloses (trace s) ∧
  openAttempts (trace s') = openAttempts (trace s).
Proof.
  unfold initLocalRecognition, stopLocalRecognition, fresh, emit,
    sessionCloses, openAttempts.
  destruct (speechRecognitionAvailable s); simpl; [|tauto].
  destruct (localRecognitionRef s); simpl;
    rewrite ?filter_snoc; simpl; repeat split; lia.
Qed.

Lemma initLocalRecognition_starts k s :
  speechRecognitionAvailable s = true →
  localRecognitionRef (initLocalRecognition k s) = Some (nextId s) ∧
  recognitionStarts (trace (initLocalRecognition k s)) = S (recognitionStarts (trace s)).
Proof.
  intros Hsp. unfold initLocalRecognition, stopLocalRecognition, fresh, emit,
    recognitionStarts.
  rewrite Hsp. simpl.
  destruct (localRecognitionRef s); simpl; rewrite ?filter_snoc; simpl; split;
    first [reflexivity | lia].
Qed.

Lemma stopLocalRecognition_frame s :
  let s' := stopLocalRecognition s in
  status s' = status s ∧ currentStatus s' = currentStatus s ∧
  sessionRef s' = sessionRef s ∧ timers s' = timers s ∧
  sourcesRef s' = sourcesRef s ∧ statusHistory s' = statusHistory s ∧
  isHandsFree s' = isHandsFree s ∧
  speechRecognitionAvailable s' = speechRecognitionAvailable s ∧
  sessionCloses (trace s') = sessionCloses (trace s) ∧
  openAttempts (trace s') = openAttempts (trace s).
Proof.
  unfold stopLocalRecognition, emit, sessionCloses, openAttempts.
  destruct (localRecognitionRef s); simpl; rewrite ?filter_snoc; simpl;
    repeat split; lia.
Qed.

Lemma afterRender_frame s :
  let s' := afterRender s in
  status s' = status s ∧ currentStatus s' = currentStatus s ∧
  statusHistory s' = statusHistory s ∧ timers s' = timers s ∧
  sessionRef s' = sessionRef s ∧ sourcesRef s' = sourcesRef s ∧
  sessionCloses (trace s') = sessionCloses (trace s) ∧
  openAttempts (trace s') = openAttempts (trace s).
Proof.
  unfold afterRender. case_bool_decide; [simpl; tauto|].
  set (k := length (renders s)). set (hooks := mkHooks _ _ _ _).
  set (s1 := set_renders (renders s ++ [hooks]) s).
  assert (H1 : status s1 = status s ∧ currentStatus s1 = currentStatus s ∧
               statusHistory s1 = statusHistory s ∧ timers s1 = timers s ∧
               sessionRef s1 = sessionRef s ∧ sourcesRef s1 = sourcesRef s ∧
               trace s1 = trace s) by (repeat split).
  clearbody s1. destruct H1 as (<- & <- & <- & <- & <- & <- & <-).
  destruct (stopLocalRecognition_frame s1)
    as (H1 & H2 & H3 & H4 & H5 & H6 & _ & _ & H9 & H10).
  set (s2 := stopLocalRecognition s1) in *. clearbody s2.
  rewrite <- H1, <- H2, <- H3, <- H4, <- H5, <- H6, <- H9, <- H10.
  unfold wakeEffect.
  destruct (isHandsFree s2 && bool_decide (status s2 = DISCONNECTED)).
  - destruct (initLocalRecognition_frame k s2)
      as (? & ? & ? & _ & ? & ? & _ & ? & ? & ?). tauto.
  - destruct (negb (isHandsFree s2)); [|tauto].
    destruct (stopLocalRecognition_frame s2)
      as (? & ? & ? & ? & ? & ? & _ & _ & ? & ?). tauto.
Qed.

Lemma initLocalRecognition_cells k s :
  status (initLocalRecognition k s) = status s ∧
  isHandsFree (initLocalRecognition k s) = isHandsFree s ∧
  renders (initLocalRecognition k s) = renders s.
Proof.
  unfold initLocalRecognition, stopLocalRecognition, fresh, emit.
  destruct (speechRecognitionAvailable s); simpl; [|tauto].
  destruct (localRecognitionRef s); simpl; tauto.
Qed.

Lemma stopLocalRecognition_cells s :
  status (stopLocalRecognition s) = status s ∧
  isHandsFree (stopLocalRecognition s) = isHandsFree s ∧
  renders (stopLocalRecognition s) = renders s.
Proof. unfold stopLocalRecognition, emit. destruct (localRecognitionRef s); simpl; tauto. Qed.

(** Every event leaves the component rendered. *)
Lemma afterRender_rendered s : rendered (afterRender s).
Proof.
  unfold afterRender. case_bool_decide as H; [exact H|].
  set (k := length (renders s)). set (hooks := mkHooks _ _ _ _).
  set (s1 := set_renders (renders s ++ [hooks]) s).
  assert (H1 : ∀ s', renders s' = renders s1 → status s' = status s1 →
                     isHandsFree s' = isHandsFree s1 → rendered s').
  { intros s' Hrs Hst Hhf. unfold rendered, hooksAt, currentRender.
    rewrite Hrs, Hst, Hhf. subst s1. simpl.
    rewrite length_app, Nat.add_1_r. simpl.
    rewrite lookup_app_r, Nat.sub_diag by reflexivity. split; reflexivity. }
  clearbody s1 hooks k.
  destruct (stopLocalRecognition_cells s1) as (Hst & Hhf & Hrs).
  set (s2 := stopLocalRecognition s1) in *. clearbody s2.
  unfold wakeEffect.
  destruct (isHandsFree s2 && bool_decide (status s2 = DISCONNECTED)).
  - destruct (initLocalRecognition_cells k s2) as (? & ? & ?).
    apply H1; congruence.
  - destruct (negb (isHandsFree s2)); [|apply H1; congruence].
    destruct (stopLocalRecognition_cells s2) as (? & ? & ?).
    apply H1; congruence.
Qed.

Lemma rendered_step s e : rendered (step s e).
Proof. apply afterRender_rendered. Qed.

Lemma rendered_initialState speech : rendered (initialState speech).
Proof. split; reflexivity. Qed.

Lemma stopSession_post k s :
  status (stopSession k s) = DISCONNECTED ∧
  currentStatus (stopSession k s) = idle ∧
  sessionRef (stopSession k s) = None ∧
  sessionPromiseRef (stopSession k s) = None ∧
  timers (stopSession k s) = timers s ∧
  sourcesRef (stopSession k s) = sourcesRef s ∧
  renders (stopSession k s) = renders s.
Proof.
  rewrite stopSession_teardown.
  destruct (teardown_post s) as (Hst & Hcs & Hsess & Hprom).
  destruct (teardown_frame s) as (Htm & Hsrc & Hrs & _).
  destruct (h_isHandsFree (hooksAt k s)); [|tauto].
  destruct (initLocalRecognition_frame k (teardown s))
    as (-> & -> & -> & -> & -> & -> & -> & _). tauto.
Qed.

Lemma stopSession_closes k s :
  sessionCloses (trace (stopSession k s)) =
    (sessionCloses (trace s) + match sessionRef s with Some _ => 1 | None => 0 end)%nat.
Proof.
  rewrite stopSession_teardown.
  destruct (teardown_trace s) as (Hcl & _).
  destruct (h_isHandsFree (hooksAt k s)); [|exact Hcl].
  destruct (initLocalRecognition_frame k (teardown s))
    as (_ & _ & _ & _ & _ & _ & _ & _ & -> & _). exact Hcl.
Qed.

Lemma stopSession_history k s :
  statusHistory (stopSession k s) =
    statusHistory s ++ if decide (status s = DISCONNECTED) then [] else [DISCONNECTED].
Proof.
  rewrite stopSession_teardown.
  destruct (h_isHandsFree (hooksAt k s)); [|apply teardown_history].
  destruct (initLocalRecognition_frame k (teardown s))
    as (_ & _ & _ & _ & _ & _ & _ & -> & _). apply teardown_history.
Qed.

Lemma startSession_frame k s :
  timers (startSession k s) = timers s ∧ renders (startSession k s) = renders s.
Proof.
  unfold startSession. destruct (_ || _); [split; reflexivity|].
  unfold fresh, emit, setStatus. case_decide; simpl; split; reflexivity.
Qed.

(** The guard of [startSession] works on the status its closure holds. *)
Lemma startSession_guard k s :
  h_status (hooksAt k s) = CONNECTING ∨ h_status (hooksAt k s) = CONNECTED →
  startSession k s = s.
Proof. intros H. unfold startSession. destruct H as [-> | ->]; reflexivity. Qed.

(** The button never calls [startSession] while the component shows
    Connecting or Connected. *)
Lemma clickPower_while_live s :
  rendered s →
  (status s = CONNECTING → clickPower s = s) ∧
  (status s = CONNECTED →
   clickPower s = stopSession (h_stopSession (hooksAt (currentRender s) s)) s).
Proof.
  intros [Hst _]. unfold clickPower. rewrite Hst.
  split; intros ->; reflexivity.
Qed.

(** C6, in the code.  Hands-free is on and recogniser 0, created while the
    status was Disconnected, hears the wake phrase: its [onresult] calls
    the [startSession] of the render that created it, and the session is
    Connecting.  The effect stops the recogniser; its [onend], which reads
    the hooks of the same render, starts it again.  It then delivers a
    second result with the wake phrase: the same [startSession] runs, its
    guard still reads Disconnected, and a second attempt is made; once both
    microphone requests are granted two channels have been opened. *)
Theorem second_wake_result_opens_a_second_channel :
  let s := run (initialState true)
             [ToggleHandsFree; RecognitionResult 0 "wake up"; RecognitionEnd 0] in
  let s' := step s (RecognitionResult 0 "wake up eva") in
  status s = CONNECTING ∧
  h_status (hooksAt (h_startSession (hooksAt (recognitionRender 0 s) s)) s) = DISCONNECTED ∧
  trace s =
    [RecognitionStart 0;
     AudioContextNew InputCtx 1; AudioContextNew OutputCtx 1; GetUserMedia 1;
     RecognitionStop 0; RecognitionStart 0] ∧
  trace s' =
    trace s ++ [AudioContextNew InputCtx 2; AudioContextNew OutputCtx 2; GetUserMedia 2] ∧
  openAttempts (trace (run s' [MicrophoneGranted 1; MicrophoneGranted 2])) = 2%nat.
Proof. vm_compute. repeat split. Qed.

(** The same closure after the channel has opened: recogniser 0 has ended
    and, its [onend] reading the hooks of its render too, has started
    again; "hey Eva" said during the live session starts another attempt. *)
Example wake_phrase_during_live_session_starts_another :
  status (run (initialState true)
            [ToggleHandsFree; RecognitionResult 0 "wake up"; MicrophoneGranted 1;
             ChannelOpen 1; SessionResolved 1; RecognitionEnd 0]) = CONNECTED ∧
  openAttempts
    (trace (run (initialState true)
              [ToggleHandsFree; RecognitionResult 0 "wake up"; MicrophoneGranted 1;
               ChannelOpen 1; SessionResolved 1; RecognitionEnd 0;
               RecognitionResult 0 "Hey Eva, one more thing"; MicrophoneGranted 2])) = 2%nat.
Proof. vm_compute. split; reflexivity. Qed.

(** C7 (as the code has it).  [stopSession] runs to its end from every
    state and leaves the status Disconnected, the visual status idle and
    the channel references cleared; it closes the channel only when it
    holds one, so a repeated call closes none.  When the [isHandsFree] it
    reads is off, a repeated call changes no cell, and a call made when the
    session is already Disconnected, idle and without a channel changes
    none either.  When it is on, every call (also one made when already
    Disconnected) creates and starts a new wake-word recogniser. *)
Theorem stopSession_tears_down_from_every_state (k : nat) (s : State) :
  (status (stopSession k s) = DISCONNECTED ∧
   currentStatus (stopSession k s) = idle ∧
   sessionRef (stopSession k s) = None ∧
   sessionPromiseRef (stopSession k s) = None) ∧
  (∀ k', sessionCloses (trace (stopSession k' (stopSession k s))) =
         sessionCloses (trace (stopSession k s))) ∧
  (h_isHandsFree (hooksAt k s) = false →
   cells (stopSession k (stopSession k s)) = cells (stopSession k s)) ∧
  (h_isHandsFree (hooksAt k s) = false → status s = DISCONNECTED →
   currentStatus s = idle → sessionRef s = None → sessionPromiseRef s = None →
   cells (stopSession k s) = cells s ∧
   sessionCloses (trace (stopSession k s)) = sessionCloses (trace s)) ∧
  (h_isHandsFree (hooksAt k s) = true → speechRecognitionAvailable s = true →
   localRecognitionRef (stopSession k s) = Some (nextId s) ∧
   recognitionStarts (trace (stopSession k s)) = S (recognitionStarts (trace s))).
Proof.
  split; [destruct (stopSession_post k s) as (? & ? & ? & ? & _); tauto|].
  split; [|split; [|split]].
  - intros k'. rewrite (stopSession_closes k' (stopSession k s)).
    destruct (stopSession_post k s) as (_ & _ & -> & _). lia.
  - intros Hhf.
    assert (Hsame : hooksAt k (stopSession k s) = hooksAt k s).
    { unfold hooksAt. now destruct (stopSession_post k s) as (_ & _ & _ & _ & _ & _ & ->). }
    rewrite (stopSession_teardown k (stopSession k s)), Hsame.
    rewrite (stopSession_teardown k s), Hhf.
    destruct (teardown_post s) as (Hst & Hcs & Hsess & Hprom).
    now apply teardown_again.
  - intros Hhf Hst Hcs Hsess Hprom.
    rewrite stopSession_teardown, Hhf. split.
    + now apply teardown_again.
    + destruct (teardown_trace s) as (-> & _). rewrite Hsess. lia.
  - intros Hhf Hsp.
    rewrite stopSession_teardown, Hhf.
    destruct (teardown_frame s) as (_ & _ & _ & Hid & _ & Hsp').
    destruct (teardown_trace s) as (_ & Hrec).
    rewrite <- Hid, <- Hrec.
    apply initLocalRecognition_starts. now rewrite Hsp'.
Qed.

Lemma stopSession_tears_down_from_every_state_witness :
  h_isHandsFree (hooksAt 0 liveSession) = false ∧
  status (stopSession 0 liveSession) = DISCONNECTED ∧
  cells (stopSession 0 (stopSession 0 liveSession)) = cells (stopSession 0 liveSession).
Proof.
  destruct (stopSession_tears_down_from_every_state 0 liveSession)
    as ((H1 & _) & _ & H3 & _).
  split; [reflexivity|]. split; [exact H1 | exact (H3 eq_refl)].
Defined.

(** On the mounted component, hands-free off, [stopSession] does nothing
    at all. *)
Example stopSession_on_mount_is_noop (speech : bool) :
  stopSession 0 (initialState speech) = initialState speech.
Proof. reflexivity. Qed.

(** C7, as stated, fails.  Hands-free is on and a second session has been
    brought up by the wake phrase; the user stops it with the button.  The
    channel then reports its close and [onclose] calls [stopSession] once
    more, the status being Disconnected already: the running recogniser is
    stopped and a new one is created and started. *)
Lemma stopSession_when_disconnected_restarts_recogniser :
  let s := step secondHandsFreeSession ClickPower in
  status s = DISCONNECTED ∧ currentStatus s = idle ∧ sessionRef s = None ∧
  localRecognitionRef s = Some 6%nat ∧
  stopSessionOf 4 s = 1%nat ∧ h_isHandsFree (hooksAt 1 s) = true ∧
  handle (ChannelClose 4) s = stopSession 1 s ∧
  trace (stopSession 1 s) =
    trace s ++ [AudioContextClose InputCtx 4; AudioContextClose OutputCtx 4;
                RecognitionStop 6; RecognitionStart 7] ∧
  localRecognitionRef (stopSession 1 s) = Some 7%nat ∧
  stopSession 1 s ≠ s.
Proof.
  vm_compute. repeat split.
  intros H. discriminate H.
Qed.

(** ** Errors *)

(** C8 (as the code has it).  An error reported by the channel moves the
    status to Error and, in the same callback, on to Disconnected with the
    visual status idle.  A rejected microphone request or connection moves
    the status to Error with the visual status idle and leaves it there:
    the callback ends in Error, schedules nothing and calls nothing. *)
Theorem errors_channel_settles_acquisition_stays (a : nat) (s : State) :
  (status (step s (ChannelError a)) = DISCONNECTED ∧
   currentStatus (step s (ChannelError a)) = idle ∧
   statusHistory (step s (ChannelError a)) =
     statusHistory s ++ (if decide (status s = ERROR) then [] else [ERROR])
       ++ [DISCONNECTED]) ∧
  (status (step s (StartRejected a)) = ERROR ∧
   currentStatus (step s (StartRejected a)) = idle ∧
   statusHistory (step s (StartRejected a)) =
     statusHistory s ++ (if decide (status s = ERROR) then [] else [ERROR]) ∧
   timers (step s (StartRejected a)) = timers s ∧
   trace (handle (StartRejected a) s) = trace s).
Proof.
  split.
  - unfold step. destruct (afterRender_frame (handle (ChannelError a) s))
      as (-> & -> & -> & _).
    simpl. unfold onerror. set (k := stopSessionOf a s).
    destruct (stopSession_post k (setStatus ERROR s)) as (-> & -> & _).
    rewrite stopSession_history, setStatus_history, setStatus_status.
    rewrite (decide_False (P := ERROR = DISCONNECTED)) by discriminate.
    repeat split. case_decide; now rewrite <- ?app_assoc.
  - unfold step. destruct (afterRender_frame (handle (StartRejected a) s))
      as (-> & -> & -> & -> & _).
    simpl. unfold startSession_catch. simpl.
    rewrite setStatus_status, setStatus_history.
    destruct (setStatus_frame ERROR s) as (-> & -> & _).
    repeat split. case_decide; now rewrite ?app_nil_r.
Qed.

(** C8, as stated, fails: the microphone is refused; the status is Error,
    not Disconnected, no timer is pending and no channel exists whose
    callback could still change it. *)
Lemma microphone_refused_leaves_status_error :
  let s := run (initialState true) [ClickPower; StartRejected 0] in
  status s = ERROR ∧ statusHistory s = [CONNECTING; ERROR] ∧
  timers s = [] ∧ sessionRef s = None ∧ sessionPromiseRef s = None ∧
  openAttempts (trace s) = 0%nat.
Proof. vm_compute. repeat split. Qed.

End Lifecycle.

Section Timers.

(** A callback other than the firing of a timer keeps every pending timer,
    in place; it may add one at the end. *)
Lemma handle_keeps_timers e s :
  (∀ i, e ≠ TimerFired i) → timers s `prefix_of` timers (handle e s).
Proof.
  intros Hfire. destruct e; simpl;
    try (exfalso; eapply Hfire; reflexivity).
  - unfold clickPower. destruct (h_status _); try reflexivity.
    + now destruct (startSession_frame (h_startSession (hooksAt (currentRender s) s)) s)
        as [-> _].
    + now destruct (stopSession_post (h_stopSession (hooksAt (currentRender s) s)) s)
        as (_ & _ & _ & _ & -> & _).
    + now destruct (startSession_frame (h_startSession (hooksAt (currentRender s) s)) s)
        as [-> _].
  - reflexivity.
  - reflexivity.
  - unfold startSession_catch. simpl.
    now destruct (setStatus_frame ERROR s) as (_ & -> & _).
  - reflexivity.
  - unfold onopen, stopLocalRecognition. simpl.
    destruct (localRecognitionRef _); simpl;
      now destruct (setStatus_frame CONNECTED s) as (_ & -> & _).
  - unfold onerror.
    destruct (stopSession_post (stopSessionOf a s) (setStatus ERROR s))
      as (_ & _ & _ & _ & -> & _).
    now destruct (setStatus_frame ERROR s) as (_ & -> & _).
  - unfold onclose.
    destruct (stopSession_post (stopSessionOf a s) (setStatus DISCONNECTED s))
      as (_ & _ & _ & _ & -> & _).
    now destruct (setStatus_frame DISCONNECTED s) as (_ & -> & _).
  - rewrite handleMessage_timers. now apply prefix_app_r.
  - unfold onended. simpl. case_bool_decide; reflexivity.
  - unfold recognition_onresult. destruct (isWakePhrase _); [|reflexivity].
    now destruct (startSession_frame
                    (h_startSession (hooksAt (recognitionRender r s) s)) s) as [-> _].
  - unfold recognition_onerror. destruct (h_isHandsFree _); [|reflexivity].
    simpl. now apply prefix_app_r.
  - unfold recognition_onend. destruct (_ && _); reflexivity.
Qed.

(** C9 (as the code has it).  No timer is ever cancelled: whatever happens
    other than the firing of a timer (a stop, a new start, the close of the
    channel, a message, ...) every pending timer stays pending.  A pending
    delayed stop that fires runs [stopSession] on the session that is
    current at that moment: the status becomes Disconnected and the channel
    held then is closed. *)
Theorem pending_timers_are_never_cancelled (s : State) (e : Event) :
  ((∀ i, e ≠ TimerFired i) → timers s `prefix_of` timers (step s e)) ∧
  (∀ i ms k, timers s !! i = Some (ms, DelayedStop k) →
     handle (TimerFired i) s = stopSession k (set_timers (delete i (timers s)) s) ∧
     status (step s (TimerFired i)) = DISCONNECTED ∧
     sessionRef (step s (TimerFired i)) = None ∧
     sessionCloses (trace (step s (TimerFired i))) =
       (sessionCloses (trace s) + match sessionRef s with Some _ => 1 | None => 0 end)%nat).
Proof.
  split.
  - intros Hfire. unfold step.
    destruct (afterRender_frame (handle e s)) as (_ & _ & _ & -> & _).
    now apply handle_keeps_timers.
  - intros i ms k Hi. unfold step.
    destruct (afterRender_frame (handle (TimerFired i) s))
      as (-> & _ & _ & _ & -> & _ & -> & _).
    simpl. unfold fireTimer. rewrite Hi.
    set (s0 := set_timers _ s).
    destruct (stopSession_post k s0) as (-> & _ & -> & _).
    repeat split. apply (stopSession_closes k s0).
Qed.

Lemma pending_timers_are_never_cancelled_witness :
  let s := run liveSession [Message 0 0 0 (inputDelta "goodbye")] in
  timers s !! 0%nat = Some (3000%Z, DelayedStop 0) ∧
  timers s `prefix_of` timers (step s ClickPower) ∧
  status (step s (TimerFired 0)) = DISCONNECTED.
Proof.
  pose (s := run liveSession [Message 0 0 0 (inputDelta "goodbye")]).
  assert (Hi : timers s !! 0%nat = Some (3000%Z, DelayedStop 0))
    by (vm_compute; reflexivity).
  split; [exact Hi|]. split.
  - apply (proj1 (pending_timers_are_never_cancelled s ClickPower)).
    intros i H. discriminate H.
  - exact (proj1 (proj2 (proj2 (pending_timers_are_never_cancelled s ClickPower)
                           0%nat _ _ Hi))).
Defined.

(** C9, as stated, fails.  "goodbye" schedules the delayed stop of session
    0; the user stops that session with the button and brings up session 1
    within the three seconds.  The stop is still pending, fires, and closes
    session 1. *)
Lemma stale_delayed_stop_ends_the_next_session :
  let s := run (initialState true)
             (connect 0 ++ [Message 0 0 0 (inputDelta "goodbye"); ClickPower]
              ++ connect 1) in
  status s = CONNECTED ∧ sessionRef s = Some 1%nat ∧
  timers s = [(3000%Z, DelayedStop 0)] ∧
  status (step s (TimerFired 0)) = DISCONNECTED ∧
  sessionRef (step s (TimerFired 0)) = None ∧
  timers (step s (TimerFired 0)) = [] ∧
  trace (step s (TimerFired 0)) =
    trace s ++ [SessionClose 1; AudioContextClose InputCtx 1; AudioContextClose OutputCtx 1].
Proof. vm_compute. repeat split. Qed.

End Timers.

Section Drained.

Lemma onended_last src s :
  sourcesRef s ⊆ {[src]} →
  currentStatus (onended src s) = listening ∧ status (onended src s) = status s.
Proof.
  intros Hsub. unfold onended. simpl.
  rewrite (subseteq_empty_difference_L _ _ Hsub).
  rewrite bool_decide_true by apply size_empty. split; reflexivity.
Qed.

(** C10.  When the source that ends is the last one of the playback set,
    [onended] sets the visual status to listening whatever the status and
    the visual status are, and leaves the status alone.  In particular,
    after [stopSession] has set the visual status to idle (it leaves the
    playback set as it is), the end of the last source sets it back to
    listening while the status stays Disconnected. *)
Theorem playback_drained_sets_listening_unconditionally
    (k : nat) (s : State) (src : nat) :
  sourcesRef s ⊆ {[src]} →
  (currentStatus (step s (SourceEnded src)) = listening ∧
   status (step s (SourceEnded src)) = status s) ∧
  (currentStatus (stopSession k s) = idle ∧
   currentStatus (step (stopSession k s) (SourceEnded src)) = listening ∧
   status (step (stopSession k s) (SourceEnded src)) = DISCONNECTED).
Proof.
  intros Hsub. unfold step. simpl handle.
  destruct (afterRender_frame (onended src s)) as (-> & -> & _).
  destruct (afterRender_frame (onended src (stopSession k s))) as (-> & -> & _).
  destruct (stopSession_post k s) as (Hst & Hcs & _ & _ & _ & Hsrc & _).
  split; [now apply onended_last|].
  split; [exact Hcs|].
  rewrite <- Hst. apply onended_last. now rewrite Hsrc.
Qed.

Lemma playback_drained_sets_listening_unconditionally_witness :
  let s := run liveSession [Message 0 0 0 (audioChunk (1 # 2))] in
  sourcesRef s ⊆ {[1%nat]} ∧
  currentStatus (stopSession 0 s) = idle ∧
  currentStatus (step (stopSession 0 s) (SourceEnded 1)) = listening ∧
  status (step (stopSession 0 s) (SourceEnded 1)) = DISCONNECTED.
Proof.
  assert (H : sourcesRef (run liveSession [Message 0 0 0 (audioChunk (1 # 2))]) ⊆ {[1%nat]})
    by (vm_compute; set_solver).
  split; [exact H|].
  exact (proj2 (playback_drained_sets_listening_unconditionally 0 _ 1%nat H)).
Defined.

(** The session is stopped with the button while the last segment is still
    playing; the segment then ends: the face shows listening, the session
    is Disconnected. *)
Example segment_ends_after_stop :
  let s := run liveSession [Message 0 0 0 (audioChunk (1 # 2)); ClickPower; SourceEnded 1] in
  status s = DISCONNECTED ∧ currentStatus s = listening.
Proof. vm_compute. split; reflexivity. Qed.

End Drained.

Section MessageFrames.

#[local] Arguments Qmax : simpl never.
#[local] Arguments Qplus : simpl never.
#[local] Arguments isExitCommand : simpl never.
#[local] Arguments toLowerCase : simpl never.
#[local] Arguments truthy : simpl never.

(** [handleMessage] is its audio branch, then the three transcript
    branches, then the interrupted branch: a relation that the transcript
    branches keep holds between the state after the first and the state
    before the last. *)
Lemma handleMessage_shape (R : State → State → Prop) stop now wall m s :
  (∀ s0, R s0 s0) → (∀ s0 s1 s2, R s0 s1 → R s1 s2 → R s0 s2) →
  (∀ text s0, R s0 (onInputTranscription stop text s0)) →
  (∀ text s0, R s0 (onOutputTranscription text s0)) →
  (∀ s0, R s0 (onTurnComplete wall s0)) →
  ∃ s2,
    R (match audioData m, outputAudioCtxRef s with
       | Some d, Some _ => enqueue now d s
       | _, _ => s
       end) s2 ∧
    handleMessage stop now wall m s = if interrupted m then onInterrupted s2 else s2.
Proof.
  intros Hrefl Htrans Hin Hout Hturn. unfold handleMessage.
  set (s1 := match audioData m, outputAudioCtxRef s with
             | Some d, Some _ => enqueue now d s
             | _, _ => s
             end).
  set (s2 := match inputTranscription m with
             | Some text => onInputTranscription stop text s1
             | None => s1
             end).
  set (s3 := match outputTranscription m with
             | Some text => onOutputTranscription text s2
             | None => s2
             end).
  exists (if turnComplete m then onTurnComplete wall s3 else s3).
  split; [|reflexivity].
  apply Htrans with s3; [apply Htrans with s2|].
  - subst s2. destruct (inputTranscription m); [apply Hin | apply Hrefl].
  - subst s3. destruct (outputTranscription m); [apply Hout | apply Hrefl].
  - destruct (turnComplete m); [apply Hturn | apply Hrefl].
Qed.

(** The transcript branches leave the playback alone. *)
Lemma transcript_branches_playback stop wall :
  let R s s' :=
    nextStartTimeRef s' = nextStartTimeRef s ∧ sourcesRef s' = sourcesRef s ∧
    nextId s' = nextId s ∧ currentStatus s' = currentStatus s ∧ trace s' = trace s in
  (∀ s0, R s0 s0) ∧ (∀ s0 s1 s2, R s0 s1 → R s1 s2 → R s0 s2) ∧
  (∀ text s0, R s0 (onInputTranscription stop text s0)) ∧
  (∀ text s0, R s0 (onOutputTranscription text s0)) ∧
  (∀ s0, R s0 (onTurnComplete wall s0)).
Proof.
  intros R. subst R. cbv beta. repeat split.
  1-5: destruct H as (? & ? & ? & ? & ?), H0 as (? & ? & ? & ? & ?); congruence.
  1-5: unfold onInputTranscription, setTimeout; destruct (isExitCommand _); reflexivity.
  all: unfold onTurnComplete; destruct (transcriptRef s0);
    destruct (truthy _ || truthy _); reflexivity.
Qed.

(** The playback fields after a message. *)
Lemma handleMessage_playback stop now wall m s :
  let s' := handleMessage stop now wall m s in
  if interrupted m
  then nextStartTimeRef s' = 0%Q ∧ sourcesRef s' = ∅ ∧ currentStatus s' = listening
  else match audioData m, outputAudioCtxRef s with
       | Some d, Some _ =>
           nextStartTimeRef s' = (Qmax (nextStartTimeRef s) now + d)%Q ∧
           sourcesRef s' = {[nextId s]} ∪ sourcesRef s ∧
           nextId s' = S (nextId s) ∧ currentStatus s' = speaking
       | _, _ =>
           nextStartTimeRef s' = nextStartTimeRef s ∧
           sourcesRef s' = sourcesRef s ∧ nextId s' = nextId s ∧
           currentStatus s' = currentStatus s ∧ trace s' = trace s
       end.
Proof.
  intros s'. subst s'.
  destruct (transcript_branches_playback stop wall) as (H1 & H2 & H3 & H4 & H5).
  destruct (handleMessage_shape _ stop now wall m s H1 H2 H3 H4 H5)
    as (s2 & (Hn & Hsrc & Hid & Hcur & Htr) & ->).
  destruct (interrupted m); [repeat split|].
  rewrite Hn, Hsrc, Hid, Hcur, Htr.
  destruct (audioData m) as [d|], (outputAudioCtxRef s); repeat split.
Qed.

(** The transcript branches leave the life cycle and the recogniser alone. *)
Lemma transcript_branches_rest stop wall :
  let R s s' :=
    sessionPromiseRef s' = sessionPromiseRef s ∧
    inputAudioCtxRef s' = inputAudioCtxRef s ∧
    localRecognitionRef s' = localRecognitionRef s ∧
    speechRecognitionAvailable s' = speechRecognitionAvailable s ∧
    statusHistory s' = statusHistory s ∧ recognitionOf s' = recognitionOf s ∧
    trace s' = trace s in
  (∀ s0, R s0 s0) ∧ (∀ s0 s1 s2, R s0 s1 → R s1 s2 → R s0 s2) ∧
  (∀ text s0, R s0 (onInputTranscription stop text s0)) ∧
  (∀ text s0, R s0 (onOutputTranscription text s0)) ∧
  (∀ s0, R s0 (onTurnComplete wall s0)).
Proof.
  intros R. subst R. cbv beta. repeat split.
  1-7: destruct H as (? & ? & ? & ? & ? & ? & ?), H0 as (? & ? & ? & ? & ? & ? & ?);
    congruence.
  1-7: unfold onInputTranscription, setTimeout; destruct (isExitCommand _); reflexivity.
  all: unfold onTurnComplete; destruct (transcriptRef s0);
    destruct (truthy _ || truthy _); reflexivity.
Qed.

(** What else a message leaves alone. *)
Lemma handleMessage_rest stop now wall m s :
  let s' := handleMessage stop now wall m s in
  sessionPromiseRef s' = sessionPromiseRef s ∧
  inputAudioCtxRef s' = inputAudioCtxRef s ∧
  localRecognitionRef s' = localRecognitionRef s ∧
  speechRecognitionAvailable s' = speechRecognitionAvailable s ∧
  statusHistory s' = statusHistory s ∧
  openAttempts (trace s') = openAttempts (trace s) ∧
  sessionCloses (trace s') = sessionCloses (trace s) ∧
  recognitionStarts (trace s') = recognitionStarts (trace s) ∧
  recognitionOf s' = recognitionOf s ∧
  recognitionEffects (trace s') = recognitionEffects (trace s).
Proof.
  intros s'. subst s'.
  destruct (transcript_branches_rest stop wall) as (H1 & H2 & H3 & H4 & H5).
  destruct (handleMessage_shape _ stop now wall m s H1 H2 H3 H4 H5)
    as (s2 & (Hp & Hi & Hl & Hsp & Hh & Hro & Htr) & ->).
  assert (Hfirst :
    let s1 := match audioData m, outputAudioCtxRef s with
              | Some d, Some _ => enqueue now d s
              | _, _ => s
              end in
    sessionPromiseRef s1 = sessionPromiseRef s ∧ inputAudioCtxRef s1 = inputAudioCtxRef s ∧
    localRecognitionRef s1 = localRecognitionRef s ∧
    speechRecognitionAvailable s1 = speechRecognitionAvailable s ∧
    statusHistory s1 = statusHistory s ∧ recognitionOf s1 = recognitionOf s ∧
    openAttempts (trace s1) = openAttempts (trace s) ∧
    sessionCloses (trace s1) = sessionCloses (trace s) ∧
    recognitionStarts (trace s1) = recognitionStarts (trace s) ∧
    recognitionEffects (trace s1) = recognitionEffects (trace s)).
  { unfold openAttempts, sessionCloses, recognitionStarts, recognitionEffects.
    destruct (audioData m) as [d|], (outputAudioCtxRef s); cbv zeta;
      try (repeat split; reflexivity).
    unfold enqueue, fresh, emit. simpl.
    rewrite !filter_snoc, List.filter_app. simpl. rewrite app_nil_r.
    repeat split; lia. }
  cbv zeta in Hfirst.
  destruct Hfirst as (F1 & F2 & F3 & F4 & F5 & F6 & F7 & F8 & F9 & F10).
  assert (Hlast : ∀ s0,
    let s3 := if interrupted m then onInterrupted s0 else s0 in
    sessionPromiseRef s3 = sessionPromiseRef s0 ∧ inputAudioCtxRef s3 = inputAudioCtxRef s0 ∧
    localRecognitionRef s3 = localRecognitionRef s0 ∧
    speechRecognitionAvailable s3 = speechRecognitionAvailable s0 ∧
    statusHistory s3 = statusHistory s0 ∧ recognitionOf s3 = recognitionOf s0 ∧
    openAttempts (trace s3) = openAttempts (trace s0) ∧
    sessionCloses (trace s3) = sessionCloses (trace s0) ∧
    recognitionStarts (trace s3) = recognitionStarts (trace s0) ∧
    recognitionEffects (trace s3) = recognitionEffects (trace s0)).
  { intros s0. unfold openAttempts, sessionCloses, recognitionStarts, recognitionEffects.
    destruct (interrupted m); cbv zeta; [|repeat split; reflexivity].
    unfold onInterrupted, emit. simpl.
    rewrite !filter_snoc, List.filter_app. simpl. rewrite app_nil_r.
    repeat split; lia. }
  destruct (Hlast s2) as (L1 & L2 & L3 & L4 & L5 & L6 & L7 & L8 & L9 & L10).
  rewrite L1, L2, L3, L4, L5, L6, L7, L8, L9, L10.
  rewrite Hp, Hi, Hl, Hsp, Hh, Hro, Htr. tauto.
Qed.

End MessageFrames.

Section FurtherFrames.

#[local] Arguments Qmax : simpl never.
#[local] Arguments Qplus : simpl never.
#[local] Arguments isExitCommand : simpl never.
#[local] Arguments toLowerCase : simpl never.
#[local] Arguments truthy : simpl never.
#[local] Arguments String.append : simpl never.

Lemma stopLocalRecognition_rest s :
  let s' := stopLocalRecognition s in
  nextStartTimeRef s' = nextStartTimeRef s ∧ transcriptRef s' = transcriptRef s ∧
  transcriptions s' = transcriptions s ∧ outputAudioCtxRef s' = outputAudioCtxRef s ∧
  inputAudioCtxRef s' = inputAudioCtxRef s ∧
  sessionPromiseRef s' = sessionPromiseRef s ∧
  localRecognitionRef s' = localRecognitionRef s ∧
  segments (trace s') = segments (trace s) ∧
  recognitionStarts (trace s') = recognitionStarts (trace s).
Proof.
  unfold stopLocalRecognition, emit, segments, recognitionStarts.
  destruct (localRecognitionRef s) eqn:Hl; simpl;
    rewrite ?Hl, ?omap_app, ?filter_snoc; simpl;
    rewrite ?app_nil_r; repeat split; first [reflexivity | lia].
Qed.

Lemma initLocalRecognition_rest k s :
  let s' := initLocalRecognition k s in
  nextStartTimeRef s' = nextStartTimeRef s ∧ transcriptRef s' = transcriptRef s ∧
  transcriptions s' = transcriptions s ∧ outputAudioCtxRef s' = outputAudioCtxRef s ∧
  inputAudioCtxRef s' = inputAudioCtxRef s ∧
  sessionPromiseRef s' = sessionPromiseRef s ∧
  speechRecognitionAvailable s' = speechRecognitionAvailable s ∧
  segments (trace s') = segments (trace s).
Proof.
  unfold initLocalRecognition, stopLocalRecognition, fresh, emit, segments.
  destruct (speechRecognitionAvailable s) eqn:Hsp; simpl; [|rewrite Hsp; tauto].
  destruct (localRecognitionRef s); simpl; rewrite ?omap_app; simpl;
    rewrite ?app_nil_r; repeat split; first [reflexivity | assumption].
Qed.

(** What the render after a callback leaves alone (beyond [afterRender_frame]). *)
Lemma afterRender_rest s :
  let s' := afterRender s in
  nextStartTimeRef s' = nextStartTimeRef s ∧ transcriptRef s' = transcriptRef s ∧
  transcriptions s' = transcriptions s ∧ outputAudioCtxRef s' = outputAudioCtxRef s ∧
  inputAudioCtxRef s' = inputAudioCtxRef s ∧
  sessionPromiseRef s' = sessionPromiseRef s ∧
  segments (trace s') = segments (trace s) ∧
  isHandsFree s' = isHandsFree s ∧
  speechRecognitionAvailable s' = speechRecognitionAvailable s.
Proof.
  unfold afterRender. case_bool_decide; [simpl; tauto|].
  set (k := length (renders s)). set (hooks := mkHooks _ _ _ _).
  set (s1 := set_renders (renders s ++ [hooks]) s).
  assert (H1 : nextStartTimeRef s1 = nextStartTimeRef s ∧ transcriptRef s1 = transcriptRef s ∧
               transcriptions s1 = transcriptions s ∧
               outputAudioCtxRef s1 = outputAudioCtxRef s ∧
               inputAudioCtxRef s1 = inputAudioCtxRef s ∧
               sessionPromiseRef s1 = sessionPromiseRef s ∧
               trace s1 = trace s ∧ isHandsFree s1 = isHandsFree s ∧
               speechRecognitionAvailable s1 = speechRecognitionAvailable s)
    by (repeat split).
  clearbody s1. destruct H1 as (<- & <- & <- & <- & <- & <- & <- & <- & <-).
  destruct (stopLocalRecognition_rest s1) as (H1 & H2 & H3 & H4 & H5 & H6 & _ & H8 & _).
  destruct (stopLocalRecognition_frame s1) as (_ & _ & _ & _ & _ & _ & H9 & H10 & _).
  set (s2 := stopLocalRecognition s1) in *. clearbody s2.
  rewrite <- H1, <- H2, <- H3, <- H4, <- H5, <- H6, <- H8, <- H9, <- H10.
  unfold wakeEffect.
  destruct (isHandsFree s2 && bool_decide (status s2 = DISCONNECTED)).
  - destruct (initLocalRecognition_rest k s2) as (? & ? & ? & ? & ? & ? & ? & ?).
    destruct (initLocalRecognition_cells k s2) as (_ & ? & _). tauto.
  - destruct (negb (isHandsFree s2)); [|tauto].
    destruct (stopLocalRecognition_rest s2) as (? & ? & ? & ? & ? & ? & _ & ? & _).
    destruct (stopLocalRecognition_frame s2) as (_ & _ & _ & _ & _ & _ & ? & ? & _).
    tauto.
Qed.

Lemma setStatus_rest v s :
  let s' := setStatus v s in
  nextStartTimeRef s' = nextStartTimeRef s ∧ transcriptRef s' = transcriptRef s ∧
  transcriptions s' = transcriptions s ∧ trace s' = trace s ∧
  localRecognitionRef s' = localRecognitionRef s ∧
  speechRecognitionAvailable s' = speechRecognitionAvailable s ∧
  outputAudioCtxRef s' = outputAudioCtxRef s ∧ sessionRef s' = sessionRef s.
Proof. unfold setStatus. case_decide; repeat split. Qed.

Lemma teardown_rest s :
  let s' := teardown s in
  nextStartTimeRef s' = nextStartTimeRef s ∧ transcriptRef s' = transcriptRef s ∧
  transcriptions s' = transcriptions s ∧ segments (trace s') = segments (trace s) ∧
  outputAudioCtxRef s' = outputAudioCtxRef s ∧
  inputAudioCtxRef s' = inputAudioCtxRef s.
Proof.
  unfold teardown, setStatus, emit, segments.
  destruct (sessionRef s) eqn:?; simpl;
    destruct (inputAudioCtxRef s) eqn:Hi; simpl;
    destruct (outputAudioCtxRef s) eqn:Ho; simpl;
    case_decide; simpl; rewrite ?omap_app; simpl; rewrite ?app_nil_r, ?Hi, ?Ho;
    repeat split.
Qed.

(** [stopSession] leaves the playback schedule, the draft, the history and
    the audio context references as they are. *)
Lemma stopSession_rest k s :
  let s' := stopSession k s in
  nextStartTimeRef s' = nextStartTimeRef s ∧ transcriptRef s' = transcriptRef s ∧
  transcriptions s' = transcriptions s ∧ segments (trace s') = segments (trace s) ∧
  outputAudioCtxRef s' = outputAudioCtxRef s ∧
  inputAudioCtxRef s' = inputAudioCtxRef s.
Proof.
  cbv zeta. rewrite stopSession_teardown.
  destruct (teardown_rest s) as (H1 & H2 & H3 & H4 & H5 & H6).
  destruct (h_isHandsFree (hooksAt k s)); [|tauto].
  destruct (initLocalRecognition_rest k (teardown s))
    as (-> & -> & -> & -> & -> & _ & _ & ->). tauto.
Qed.

Lemma startSession_rest k s :
  let s' := startSession k s in
  nextStartTimeRef s' = nextStartTimeRef s ∧ transcriptRef s' = transcriptRef s ∧
  transcriptions s' = transcriptions s ∧ segments (trace s') = segments (trace s) ∧
  sessionRef s' = sessionRef s ∧ sessionPromiseRef s' = sessionPromiseRef s ∧
  localRecognitionRef s' = localRecognitionRef s ∧
  speechRecognitionAvailable s' = speechRecognitionAvailable s.
Proof.
  unfold startSession. destruct (_ || _); [tauto|].
  unfold fresh, emit, setStatus, segments. case_decide; simpl;
    rewrite ?omap_app; simpl; rewrite ?app_nil_r; repeat split.
Qed.

(** What the life-cycle callbacks and the recogniser's callbacks leave
    alone: the playback schedule, the draft and the history. *)
Lemma handle_rest e s :
  (∀ a now wall m, e ≠ Message a now wall m) →
  nextStartTimeRef (handle e s) = nextStartTimeRef s ∧
  transcriptRef (handle e s) = transcriptRef s ∧
  transcriptions (handle e s) = transcriptions s ∧
  segments (trace (handle e s)) = segments (trace s).
Proof.
  intros Hmsg. destruct e; try (exfalso; eapply Hmsg; reflexivity); simpl.
  - unfold clickPower. destruct (h_status _); try tauto.
    + destruct (startSession_rest (h_startSession (hooksAt (currentRender s) s)) s)
        as (? & ? & ? & ? & _); tauto.
    + destruct (stopSession_rest (h_stopSession (hooksAt (currentRender s) s)) s)
        as (? & ? & ? & ? & _); tauto.
    + destruct (startSession_rest (h_startSession (hooksAt (currentRender s) s)) s)
        as (? & ? & ? & ? & _); tauto.
  - repeat split.
  - unfold startSession_connect, emit, segments. simpl.
    rewrite omap_app. simpl. rewrite app_nil_r. repeat split.
  - unfold startSession_catch. simpl.
    destruct (setStatus_rest ERROR s) as (-> & -> & -> & -> & _). repeat split.
  - repeat split.
  - unfold onopen. simpl.
    set (s1 := setCurrentStatus listening (setStatus CONNECTED s)).
    destruct (stopLocalRecognition_rest s1) as (-> & -> & -> & _ & _ & _ & _ & -> & _).
    subst s1. simpl.
    destruct (setStatus_rest CONNECTED s) as (-> & -> & -> & -> & _). repeat split.
  - unfold onerror.
    destruct (stopSession_rest (stopSessionOf a s) (setStatus ERROR s))
      as (-> & -> & -> & -> & _).
    destruct (setStatus_rest ERROR s) as (-> & -> & -> & -> & _). repeat split.
  - unfold onclose.
    destruct (stopSession_rest (stopSessionOf a s) (setStatus DISCONNECTED s))
      as (-> & -> & -> & -> & _).
    destruct (setStatus_rest DISCONNECTED s) as (-> & -> & -> & -> & _). repeat split.
  - unfold onended. simpl. case_bool_decide; repeat split.
  - unfold fireTimer. destruct (timers s !! i) as [[ms [k|r]]|]; [| |tauto].
    + destruct (stopSession_rest k (set_timers (delete i (timers s)) s))
        as (-> & -> & -> & -> & _). repeat split.
    + unfold emit, segments. simpl. rewrite omap_app. simpl. rewrite app_nil_r.
      repeat split.
  - unfold recognition_onresult. destruct (isWakePhrase _); [|tauto].
    destruct (startSession_rest (h_startSession (hooksAt (recognitionRender r s) s)) s)
      as (? & ? & ? & ? & _); tauto.
  - unfold recognition_onerror. destruct (h_isHandsFree _); repeat split.
  - unfold recognition_onend, emit, segments. destruct (_ && _); [|tauto]. simpl.
    rewrite omap_app. simpl. rewrite app_nil_r. repeat split.
Qed.

(** The same for a whole step that is no message. *)
Lemma step_rest e s :
  (∀ a now wall m, e ≠ Message a now wall m) →
  nextStartTimeRef (step s e) = nextStartTimeRef s ∧
  transcriptRef (step s e) = transcriptRef s ∧
  transcriptions (step s e) = transcriptions s ∧
  segments (trace (step s e)) = segments (trace s).
Proof.
  intros Hmsg. unfold step.
  destruct (afterRender_rest (handle e s)) as (-> & -> & -> & _ & _ & _ & -> & _).
  now apply handle_rest.
Qed.

Lemma teardown_isHandsFree s : isHandsFree (teardown s) = isHandsFree s.
Proof.
  unfold teardown, setStatus, emit.
  destruct (sessionRef s) eqn:?; simpl;
    destruct (inputAudioCtxRef s) eqn:Hi; simpl;
    destruct (outputAudioCtxRef s) eqn:Ho; simpl;
    case_decide; reflexivity.
Qed.

Lemma teardown_counts s :
  openAttempts (trace (teardown s)) = openAttempts (trace s) ∧
  microphoneRequests (trace (teardown s)) = microphoneRequests (trace s).
Proof.
  unfold teardown, setStatus, emit, openAttempts, microphoneRequests.
  destruct (sessionRef s) eqn:?; simpl;
    destruct (inputAudioCtxRef s) eqn:Hi; simpl;
    destruct (outputAudioCtxRef s) eqn:Ho; simpl;
    case_decide; simpl; rewrite ?filter_snoc; simpl; rewrite ?filter_snoc; simpl;
    rewrite ?filter_snoc; simpl; split; lia.
Qed.

Lemma stopLocalRecognition_counts s :
  microphoneRequests (trace (stopLocalRecognition s)) = microphoneRequests (trace s).
Proof.
  unfold stopLocalRecognition, emit, microphoneRequests.
  destruct (localRecognitionRef s); simpl; rewrite ?filter_snoc; simpl; lia.
Qed.

Lemma initLocalRecognition_counts k s :
  microphoneRequests (trace (initLocalRecognition k s)) = microphoneRequests (trace s).
Proof.
  unfold initLocalRecognition, stopLocalRecognition, fresh, emit, microphoneRequests.
  destruct (speechRecognitionAvailable s); simpl; [|reflexivity].
  destruct (localRecognitionRef s); simpl; rewrite ?filter_snoc; simpl;
    rewrite ?filter_snoc; simpl; lia.
Qed.

Lemma afterRender_counts s :
  microphoneRequests (trace (afterRender s)) = microphoneRequests (trace s).
Proof.
  unfold afterRender. case_bool_decide; [reflexivity|].
  unfold wakeEffect.
  destruct (_ && _);
    [rewrite initLocalRecognition_counts
    |destruct (negb _); [rewrite stopLocalRecognition_counts|]];
    rewrite stopLocalRecognition_counts; reflexivity.
Qed.

(** The platform calls of [stopSession]: no channel is opened, no
    microphone asked for, and the channel [sessionRef] holds is closed. *)
Lemma stopSession_counts k s :
  openAttempts (trace (stopSession k s)) = openAttempts (trace s) ∧
  microphoneRequests (trace (stopSession k s)) = microphoneRequests (trace s) ∧
  sessionCloses (trace (stopSession k s)) = (sessionCloses (trace s) + held s)%nat ∧
  held (stopSession k s) = 0%nat.
Proof.
  unfold held. destruct (stopSession_post k s) as (_ & _ & -> & _).
  rewrite stopSession_closes. rewrite stopSession_teardown.
  destruct (teardown_counts s) as [Ho Hm].
  destruct (h_isHandsFree (hooksAt k s)); [|tauto].
  rewrite initLocalRecognition_counts.
  destruct (initLocalRecognition_frame k (teardown s))
    as (_ & _ & _ & _ & _ & _ & _ & _ & _ & ->). tauto.
Qed.

(** The platform calls of [startSession]: one request for the microphone
    when the guard lets it through, and no channel opened or closed yet. *)
Lemma startSession_counts k s :
  openAttempts (trace (startSession k s)) = openAttempts (trace s) ∧
  sessionCloses (trace (startSession k s)) = sessionCloses (trace s) ∧
  held (startSession k s) = held s ∧
  microphoneRequests (trace (startSession k s)) =
    (microphoneRequests (trace s) +
       if bool_decide (h_status (hooksAt k s) = CONNECTING)
          || bool_decide (h_status (hooksAt k s) = CONNECTED)
       then 0 else 1)%nat.
Proof.
  unfold held. destruct (startSession_rest k s) as (_ & _ & _ & _ & -> & _).
  unfold startSession. destruct (_ || _); [repeat split; lia|].
  unfold fresh, emit, setStatus, openAttempts, sessionCloses, microphoneRequests.
  case_decide; simpl; rewrite ?filter_snoc; simpl; rewrite ?filter_snoc; simpl;
    rewrite ?filter_snoc; simpl; repeat split; lia.
Qed.

(** The channels a callback opens and closes. *)
Lemma handle_channels e s :
  openAttempts (trace (handle e s)) =
    (openAttempts (trace s) + if isMicrophoneGranted e then 1 else 0)%nat ∧
  (sessionCloses (trace (handle e s)) + held (handle e s) <=
     sessionCloses (trace s) + held s + if isSessionResolved e then 1 else 0)%nat.
Proof.
  assert (Hset : ∀ v s0, trace (setStatus v s0) = trace s0 ∧
                         held (setStatus v s0) = held s0).
  { intros v s0. unfold held, setStatus. case_decide; split; reflexivity. }
  assert (Hstop : ∀ k s0,
            openAttempts (trace (stopSession k s0)) = openAttempts (trace s0) ∧
            (sessionCloses (trace (stopSession k s0)) + held (stopSession k s0) <=
               sessionCloses (trace s0) + held s0)%nat).
  { intros k s0. destruct (stopSession_counts k s0) as (-> & _ & -> & ->). split; lia. }
  assert (Hstart : ∀ k s0,
            openAttempts (trace (startSession k s0)) = openAttempts (trace s0) ∧
            (sessionCloses (trace (startSession k s0)) + held (startSession k s0) <=
               sessionCloses (trace s0) + held s0)%nat).
  { intros k s0. destruct (startSession_counts k s0) as (-> & -> & -> & _). split; lia. }
  destruct e; simpl; rewrite ?Nat.add_0_r.
  - unfold clickPower. destruct (h_status _); auto.
  - unfold toggleHandsFree. simpl. split; reflexivity.
  - unfold startSession_connect, emit, openAttempts, sessionCloses, held. simpl.
    rewrite !filter_snoc. simpl. rewrite ?length_app, ?app_nil_r. simpl. split; lia.
  - unfold startSession_catch. simpl.
    destruct (Hset ERROR s) as [Ht Hh]. unfold held in *. simpl. rewrite Ht.
    split; [reflexivity|]. simpl in Hh. lia.
  - unfold startSession_resolved, held. simpl. destruct (sessionRef s); split; lia.
  - unfold onopen. simpl.
    destruct (stopLocalRecognition_frame (setCurrentStatus listening (setStatus CONNECTED s)))
      as (_ & _ & Hs & _ & _ & _ & _ & _ & -> & ->).
    unfold held. rewrite Hs. simpl.
    destruct (Hset CONNECTED s) as [-> Hh]. unfold held in Hh. rewrite Hh.
    split; reflexivity.
  - unfold onerror. destruct (Hstop (stopSessionOf a s) (setStatus ERROR s)) as [-> Hle].
    destruct (Hset ERROR s) as [Ht Hh]. rewrite Ht, Hh in *. split; [reflexivity | lia].
  - unfold onclose.
    destruct (Hstop (stopSessionOf a s) (setStatus DISCONNECTED s)) as [-> Hle].
    destruct (Hset DISCONNECTED s) as [Ht Hh]. rewrite Ht, Hh in *.
    split; [reflexivity | lia].
  - destruct (handleMessage_rest (stopSessionOf a s) now wall m s)
      as (_ & _ & _ & _ & _ & -> & -> & _).
    unfold held.
    destruct (handleMessage_frame (stopSessionOf a s) now wall m s)
      as (_ & _ & _ & _ & _ & ->). split; reflexivity.
  - unfold onended, held. simpl. case_bool_decide; simpl; split; reflexivity.
  - unfold fireTimer. destruct (timers s !! i) as [[ms [k|r]]|]; [| |split; reflexivity].
    + destruct (Hstop k (set_timers (delete i (timers s)) s)) as [-> Hle].
      split; [reflexivity | exact Hle].
    + unfold emit, openAttempts, sessionCloses, held. simpl.
      rewrite !filter_snoc. simpl. rewrite ?length_app, ?app_nil_r. simpl. split; lia.
  - unfold recognition_onresult. destruct (isWakePhrase _); [auto | split; reflexivity].
  - unfold recognition_onerror, setTimeout, held.
    destruct (h_isHandsFree _); simpl; split; reflexivity.
  - unfold recognition_onend. destruct (_ && _); [|split; reflexivity].
    unfold emit, openAttempts, sessionCloses, held. simpl.
    rewrite !filter_snoc. simpl. rewrite ?length_app, ?app_nil_r. simpl. split; lia.
Qed.

Lemma step_channels e s :
  openAttempts (trace (step s e)) =
    (openAttempts (trace s) + if isMicrophoneGranted e then 1 else 0)%nat ∧
  (sessionCloses (trace (step s e)) + held (step s e) <=
     sessionCloses (trace s) + held s + if isSessionResolved e then 1 else 0)%nat.
Proof.
  unfold step, held.
  destruct (afterRender_frame (handle e s)) as (_ & _ & _ & _ & -> & _ & -> & ->).
  apply handle_channels.
Qed.

(** No callback touches the render table. *)
Lemma handle_renders e s : renders (handle e s) = renders s.
Proof.
  assert (Hstart : ∀ k s0, renders (startSession k s0) = renders s0)
    by (intros; apply startSession_frame).
  assert (Hstop : ∀ k s0, renders (stopSession k s0) = renders s0)
    by (intros; apply stopSession_post).
  assert (Hset : ∀ v s0, renders (setStatus v s0) = renders s0)
    by (intros; apply setStatus_frame).
  destruct e; simpl.
  - unfold clickPower. destruct (h_status _); auto.
  - reflexivity.
  - reflexivity.
  - unfold startSession_catch. simpl. apply Hset.
  - reflexivity.
  - unfold onopen, stopLocalRecognition. simpl.
    destruct (localRecognitionRef _); simpl; apply Hset.
  - unfold onerror. rewrite Hstop. apply Hset.
  - unfold onclose. rewrite Hstop. apply Hset.
  - apply handleMessage_frame.
  - unfold onended. simpl. case_bool_decide; reflexivity.
  - unfold fireTimer. destruct (timers s !! i) as [[ms [k|r]]|]; try reflexivity.
    rewrite Hstop. reflexivity.
  - unfold recognition_onresult. destruct (isWakePhrase _); auto.
  - unfold recognition_onerror. destruct (h_isHandsFree _); reflexivity.
  - unfold recognition_onend. destruct (_ && _); reflexivity.
Qed.

End FurtherFrames.

Section FurtherPlayback.

#[local] Arguments Qmax : simpl never.
#[local] Arguments Qplus : simpl never.

Lemma spec_schedule_abutting arrivals :
  ∀ next, bursty next arrivals →
  abutting (spec_schedule next arrivals) ∧
  match spec_schedule next arrivals with
  | seg :: _ => (seg.1 == next)%Q
  | [] => True
  end.
Proof.
  induction arrivals as [|[now d] rest IH]; intros next; simpl; [tauto|].
  intros [Hnow Hrest]. destruct (IH _ Hrest) as [Habut Hhead].
  split; [|now apply Q.max_l].
  destruct rest as [|[now' d'] rest']; simpl in *; [exact I|].
  split; [exact Hhead | exact Habut].
Qed.

Lemma scheduledSince_run a s ms :
  rendered s → is_Some (outputAudioCtxRef s) → Forall plainDelivery ms →
  scheduledSince s (run s (map (deliver a) ms)) =
    spec_schedule (nextStartTimeRef s) (chunks ms).
Proof.
  intros Hr Hctx Hms. unfold scheduledSince.
  now rewrite (run_schedule a ms Hms s Hr Hctx), drop_app_length.
Qed.

(** X1.  Gapless playback.  When every audio chunk of a run arrives no
    later than the end of the segment scheduled before it (the first one no
    later than the scheduler's next start time), the first segment starts
    at the scheduler's next start time and every further segment starts
    exactly where the one before it ends. *)
Theorem bursty_chunks_play_back_to_back (a : nat) (s : State) (ms : list Delivery) :
  rendered s →
  is_Some (outputAudioCtxRef s) →
  Forall plainDelivery ms →
  bursty (nextStartTimeRef s) (chunks ms) →
  let segs := scheduledSince s (run s (map (deliver a) ms)) in
  abutting segs ∧
  match segs with
  | seg :: _ => (seg.1 == nextStartTimeRef s)%Q
  | [] => True
  end.
Proof.
  intros Hr Hctx Hms Hb segs. subst segs.
  rewrite scheduledSince_run by assumption.
  now apply spec_schedule_abutting.
Qed.

Lemma bursty_chunks_play_back_to_back_witness :
  let ms : list Delivery :=
    [((1 # 2)%Q, 5%Z, audioChunk (1 # 2)); ((3 # 5)%Q, 6%Z, audioChunk (1 # 4));
     ((1 # 1)%Q, 7%Z, audioChunk (1 # 3))] in
  let s := run liveSession [Message 0 (1 # 2) 4 (audioChunk (1 # 10))] in
  bursty (nextStartTimeRef s) (chunks ms) ∧
  abutting (scheduledSince s (run s (map (deliver 0) ms))).
Proof.
  intros ms s.
  assert (Hb : bursty (nextStartTimeRef s) (chunks ms)).
  { vm_compute. repeat split; intros H; discriminate H. }
  assert (Hr : rendered s) by (vm_compute; split; reflexivity).
  assert (Hctx : is_Some (outputAudioCtxRef s)) by (vm_compute; eauto).
  assert (Hms : Forall plainDelivery ms).
  { repeat (constructor;
              [split; [reflexivity | intros d [= <-]; unfold Qle; simpl; lia] |]).
    constructor. }
  split; [exact Hb|].
  pose proof (bursty_chunks_play_back_to_back 0 s ms Hr Hctx Hms Hb) as H.
  cbv zeta in H. destruct H as [H _]. exact H.
Defined.

Lemma spec_schedule_not_early arrivals :
  ∀ next,
  Forall2 (fun seg arrival : Q * Q => (arrival.1 <= seg.1)%Q ∧ seg.2 = arrival.2)
    (spec_schedule next arrivals) arrivals.
Proof.
  induction arrivals as [|[now d] rest IH]; intros next; simpl; constructor.
  - simpl. split; [apply Q.le_max_r | reflexivity].
  - apply IH.
Qed.

(** X2.  No segment is scheduled in the past.  Over a run of deliveries
    without an interruption there is one segment per audio chunk, in the
    order of arrival and with the chunk's duration, and each starts no
    earlier than the reading of the output clock at the chunk's arrival; a
    chunk that finds the scheduler drained starts at that reading. *)
Theorem segments_start_at_or_after_arrival (a : nat) (s : State) (ms : list Delivery) :
  rendered s →
  is_Some (outputAudioCtxRef s) →
  Forall plainDelivery ms →
  let segs := scheduledSince s (run s (map (deliver a) ms)) in
  Forall2 (fun seg arrival : Q * Q => (arrival.1 <= seg.1)%Q ∧ seg.2 = arrival.2)
    segs (chunks ms) ∧
  match segs, chunks ms with
  | seg :: _, arrival :: _ =>
      (nextStartTimeRef s <= arrival.1)%Q → (seg.1 == arrival.1)%Q
  | _, _ => True
  end.
Proof.
  intros Hr Hctx Hms segs. subst segs.
  rewrite scheduledSince_run by assumption.
  split; [apply spec_schedule_not_early|].
  destruct (chunks ms) as [|[now d] rest]; simpl; [exact I|].
  intros Hle. now apply Q.max_r.
Qed.

Lemma segments_start_at_or_after_arrival_witness :
  let ms : list Delivery :=
    [(3%Q, 5%Z, audioChunk (1 # 2)); (4%Q, 6%Z, audioChunk (1 # 2))] in
  Forall2 (fun seg arrival : Q * Q => (arrival.1 <= seg.1)%Q ∧ seg.2 = arrival.2)
    (scheduledSince liveSession (run liveSession (map (deliver 0) ms))) (chunks ms).
Proof.
  intros ms.
  assert (Hr : rendered liveSession) by (vm_compute; split; reflexivity).
  assert (Hctx : is_Some (outputAudioCtxRef liveSession)) by (vm_compute; eauto).
  assert (Hms : Forall plainDelivery ms).
  { repeat (constructor;
              [split; [reflexivity | intros d [= <-]; unfold Qle; simpl; lia] |]).
    constructor. }
  pose proof (segments_start_at_or_after_arrival 0 liveSession ms Hr Hctx Hms) as H.
  cbv zeta in H. destruct H as [H _]. exact H.
Defined.

Lemma step_next_time e s :
  soundEvent e →
  ((0 <= nextStartTimeRef s)%Q → (0 <= nextStartTimeRef (step s e))%Q) ∧
  (notInterruption e → (nextStartTimeRef s <= nextStartTimeRef (step s e))%Q).
Proof.
  intros Hsound.
  destruct e as [| | | | | | | |a now wall m| | | | |];
    try (match goal with
         | |- context [step s ?e] =>
             destruct (step_rest e s) as (-> & _); [intros ? ? ? ? Hne; discriminate Hne|]
         end;
         split; intros; [assumption | apply Qle_refl]).
  destruct Hsound as [Hnow Hd]. unfold step. simpl.
  destruct (afterRender_rest (handleMessage (stopSessionOf a s) now wall m s)) as (-> & _).
  pose proof (handleMessage_playback (stopSessionOf a s) now wall m s) as H.
  cbv zeta in H. unfold notInterruption.
  destruct (interrupted m).
  - destruct H as (-> & _). split; [intros; apply Qle_refl | discriminate].
  - destruct (audioData m) as [d|], (outputAudioCtxRef s);
      try (destruct H as (-> & _); split; intros; [assumption | apply Qle_refl]).
    destruct H as (-> & _). specialize (Hd d eq_refl).
    pose proof (Q.le_max_l (nextStartTimeRef s) now).
    split; intros; lra.
Qed.

(** Without an interruption the next start time does not decrease. *)
Lemma run_next_time_mono (es : list Event) (s : State) :
  Forall soundEvent es → Forall notInterruption es →
  (nextStartTimeRef s <= nextStartTimeRef (run s es))%Q.
Proof.
  intros Hes. revert s. induction Hes as [|e es He _ IH]; intros s Hni; simpl.
  - apply Qle_refl.
  - inversion Hni; subst. destruct (step_next_time e s He) as [_ Hmono].
    eapply Qle_trans; [apply Hmono | apply IH]; assumption.
Qed.

(** X3.  The scheduler's next start time is never negative, and it only
    moves backwards on an interruption: over any run of events (messages,
    stops, starts, timers, ...) whose clock readings and buffer durations
    are not negative it stays non-negative, and when the run has no
    interrupted message it does not decrease. *)
Theorem next_start_time_invariant (es : list Event) (s : State) :
  Forall soundEvent es →
  ((0 <= nextStartTimeRef s)%Q → (0 <= nextStartTimeRef (run s es))%Q) ∧
  (Forall notInterruption es → (nextStartTimeRef s <= nextStartTimeRef (run s es))%Q).
Proof.
  intros Hes. split; [|intros Hni; apply run_next_time_mono; assumption].
  revert s. induction Hes as [|e es He _ IH]; intros s H; simpl; [exact H|].
  destruct (step_next_time e s He) as [Hpos _]. apply IH, Hpos, H.
Qed.

Lemma next_start_time_invariant_witness :
  (0 <= nextStartTimeRef
          (run liveSession
             [Message 0 (1 # 2) 5 (audioChunk 3); ClickPower;
              Message 0 1 6 interruptedMessage; SourceEnded 1]))%Q.
Proof.
  pose proof (next_start_time_invariant
                [Message 0 (1 # 2) 5 (audioChunk 3); ClickPower;
                 Message 0 1 6 interruptedMessage; SourceEnded 1] liveSession) as H.
  assert (Hes : Forall soundEvent
                  [Message 0 (1 # 2) 5 (audioChunk 3); ClickPower;
                   Message 0 1 6 interruptedMessage; SourceEnded 1]).
  { repeat (apply List.Forall_cons; [|]); try apply List.Forall_nil; simpl;
      try exact I; (split; [unfold Qle; simpl; lia|]);
      intros d Hd; vm_compute in Hd; try discriminate Hd;
      injection Hd as <-; unfold Qle; simpl; lia. }
  destruct (H Hes) as [H1 _]. apply H1.
  unfold Qle. vm_compute. intros Hc. discriminate Hc.
Defined.



(** The audio-context references after a step. *)
Lemma step_contexts e s :
  (is_Some (outputAudioCtxRef s) → is_Some (outputAudioCtxRef (step s e))) ∧
  (is_Some (inputAudioCtxRef s) → is_Some (inputAudioCtxRef (step s e))).
Proof.
  unfold step.
  destruct (afterRender_rest (handle e s)) as (_ & _ & _ & -> & -> & _).
  assert (Hstart : ∀ k, (is_Some (outputAudioCtxRef s) →
                         is_Some (outputAudioCtxRef (startSession k s))) ∧
                        (is_Some (inputAudioCtxRef s) →
                         is_Some (inputAudioCtxRef (startSession k s)))).
  { intros k. unfold startSession. destruct (_ || _); [tauto|].
    unfold fresh, emit. simpl. split; eauto. }
  assert (Hstop : ∀ k s0, outputAudioCtxRef (stopSession k s0) = outputAudioCtxRef s0 ∧
                          inputAudioCtxRef (stopSession k s0) = inputAudioCtxRef s0).
  { intros k s0. destruct (stopSession_rest k s0) as (_ & _ & _ & _ & ? & ?). tauto. }
  assert (Hset : ∀ v, outputAudioCtxRef (setStatus v s) = outputAudioCtxRef s ∧
                      inputAudioCtxRef (setStatus v s) = inputAudioCtxRef s).
  { intros v. unfold setStatus. case_decide; split; reflexivity. }
  destruct e; simpl.
  - unfold clickPower. destruct (h_status _); try tauto; try apply Hstart.
    destruct (Hstop (h_stopSession (hooksAt (currentRender s) s)) s) as [-> ->]. tauto.
  - tauto.
  - tauto.
  - unfold startSession_catch. simpl. destruct (Hset ERROR) as [-> ->]. tauto.
  - tauto.
  - unfold onopen, stopLocalRecognition. simpl.
    destruct (localRecognitionRef _); simpl; destruct (Hset CONNECTED) as [-> ->]; tauto.
  - unfold onerror. destruct (Hstop (stopSessionOf a s) (setStatus ERROR s)) as [-> ->].
    destruct (Hset ERROR) as [-> ->]. tauto.
  - unfold onclose.
    destruct (Hstop (stopSessionOf a s) (setStatus DISCONNECTED s)) as [-> ->].
    destruct (Hset DISCONNECTED) as [-> ->]. tauto.
  - destruct (handleMessage_frame (stopSessionOf a s) now wall m s)
      as (_ & _ & _ & _ & -> & _).
    destruct (handleMessage_rest (stopSessionOf a s) now wall m s) as (_ & -> & _). tauto.
  - unfold onended. simpl. case_bool_decide; tauto.
  - unfold fireTimer. destruct (timers s !! i) as [[ms [k|r]]|]; [| tauto | tauto].
    destruct (Hstop k (set_timers (delete i (timers s)) s)) as [-> ->]. tauto.
  - unfold recognition_onresult. destruct (isWakePhrase _); [apply Hstart | tauto].
  - unfold recognition_onerror. destruct (h_isHandsFree _); tauto.
  - unfold recognition_onend. destruct (_ && _); tauto.
Qed.

(** X5.  The audio-context references are never cleared: no callback
    unsets them ([stopSession] closes the contexts and keeps the
    references).  Over every run of events a context reference that is set
    stays set, so once a session has been started the guard of the audio
    branch of [handleMessage] holds for good, also after the session was
    stopped. *)
Theorem context_references_are_never_cleared (es : list Event) (s : State) :
  (is_Some (outputAudioCtxRef s) → is_Some (outputAudioCtxRef (run s es))) ∧
  (is_Some (inputAudioCtxRef s) → is_Some (inputAudioCtxRef (run s es))).
Proof.
  revert s. induction es as [|e es IH]; intros s; simpl; [tauto|].
  destruct (step_contexts e s), (IH (step s e)). split; auto.
Qed.

Lemma context_references_are_never_cleared_witness :
  is_Some (outputAudioCtxRef (run liveSession [ClickPower; ChannelClose 0])).
Proof.
  apply (context_references_are_never_cleared [ClickPower; ChannelClose 0] liveSession).
  vm_compute. eauto.
Defined.

End FurtherPlayback.

Section Closures.

Lemma coherentTable_mount : coherentTable [mountHooks].
Proof.
  split; [discriminate|]. intros [|k] h Hk; [|destruct k; discriminate Hk].
  injection Hk as <-. simpl. repeat split; lia.
Qed.

Lemma coherentTable_render rs st hf :
  coherentTable rs →
  let prev := default mountHooks (rs !! pred (length rs)) in
  coherentTable
    (rs ++ [mkHooks st hf
              (if decide (h_status prev = st) then h_startSession prev else length rs)
              (if decide (h_isHandsFree prev = hf) then h_stopSession prev else length rs)]).
Proof.
  intros [Hne Hrs] prev. split; [destruct rs; discriminate|].
  assert (Hlen : (0 < length rs)%nat) by (destruct rs; [contradiction | simpl; lia]).
  assert (Hprev : rs !! pred (length rs) = Some prev).
  { subst prev. destruct (lookup_lt_is_Some_2 rs (pred (length rs))) as [p Hp]; [lia|].
    rewrite Hp. reflexivity. }
  destruct (Hrs _ _ Hprev) as (Hp1 & Hp2 & Hp3 & Hp4).
  intros k h Hk.
  destruct (decide (k < length rs)%nat) as [Hlt|Hge].
  - rewrite lookup_app_l in Hk by exact Hlt.
    destruct (Hrs _ _ Hk) as (H1 & H2 & H3 & H4).
    rewrite !lookup_app_l by lia. tauto.
  - assert (k = length rs) as ->.
    { apply lookup_lt_Some in Hk. rewrite length_app in Hk. simpl in Hk. lia. }
    rewrite lookup_app_r, Nat.sub_diag in Hk by lia. injection Hk as <-. simpl.
    repeat split.
    + case_decide; lia.
    + case_decide; lia.
    + case_decide as Hst.
      * rewrite lookup_app_l by lia. congruence.
      * rewrite lookup_app_r, Nat.sub_diag by lia. reflexivity.
    + case_decide as Hhf.
      * rewrite lookup_app_l by lia. congruence.
      * rewrite lookup_app_r, Nat.sub_diag by lia. reflexivity.
Qed.

Lemma wakeEffect_renders k s : renders (wakeEffect k s) = renders s.
Proof.
  unfold wakeEffect. destruct (_ && _); [apply initLocalRecognition_cells|].
  destruct (negb _); [apply stopLocalRecognition_cells | reflexivity].
Qed.

Lemma coherent_afterRender s : coherent s → coherent (afterRender s).
Proof.
  intros H. unfold afterRender. case_bool_decide; [exact H|].
  unfold coherent. rewrite wakeEffect_renders.
  destruct (stopLocalRecognition_cells
              (set_renders
                 (renders s ++
                    [mkHooks (status s) (isHandsFree s)
                       (if decide (h_status (hooksAt (currentRender s) s) = status s)
                        then h_startSession (hooksAt (currentRender s) s)
                        else length (renders s))
                       (if decide (h_isHandsFree (hooksAt (currentRender s) s) = isHandsFree s)
                        then h_stopSession (hooksAt (currentRender s) s)
                        else length (renders s))]) s)) as (_ & _ & ->).
  simpl. apply (coherentTable_render (renders s) (status s) (isHandsFree s) H).
Qed.

Lemma coherent_step s e : coherent s → coherent (step s e).
Proof.
  intros H. apply coherent_afterRender. unfold coherent.
  rewrite handle_renders. exact H.
Qed.

Lemma coherent_run es s : coherent s → coherent (run s es).
Proof.
  revert s. induction es as [|e es IH]; intros s H; [exact H|].
  simpl. apply IH, coherent_step, H.
Qed.

Lemma rendered_run es s : rendered s → rendered (run s es).
Proof.
  revert s. induction es as [|e es IH]; intros s H; [exact H|].
  simpl. apply IH, rendered_step.
Qed.

Lemma reachable_coherent s : reachable s → coherent s ∧ rendered s.
Proof.
  intros (speech & es & ->). split.
  - apply coherent_run, coherentTable_mount.
  - apply rendered_run, rendered_initialState.
Qed.

(** The callbacks of the latest render see the current cells. *)
Lemma current_closures s :
  coherent s → rendered s →
  h_status (hooksAt (h_startSession (hooksAt (currentRender s) s)) s) = status s ∧
  h_isHandsFree (hooksAt (h_stopSession (hooksAt (currentRender s) s)) s) = isHandsFree s.
Proof.
  intros [Hne Hrs] [Hst Hhf]. unfold hooksAt, currentRender in *.
  destruct (lookup_lt_is_Some_2 (renders s) (pred (length (renders s)))) as [p Hp].
  { destruct (renders s); [contradiction | simpl; lia]. }
  rewrite Hp in *. simpl in *.
  destruct (Hrs _ _ Hp) as (_ & _ & H3 & H4). split; congruence.
Qed.

End Closures.

Section Channels.

Lemma run_app (s : State) (es fs : list Event) :
  run s (es ++ fs) = run (run s es) fs.
Proof. revert s. induction es as [|e es IH]; intros s; [reflexivity | apply IH]. Qed.

(** X6.  A channel is opened only by the continuation of [startSession]
    that runs once the microphone is granted.  Over every run of events,
    from every state, [ai.live.connect] has been called once per
    [MicrophoneGranted] event and never otherwise: a refused microphone
    opens nothing, and neither [onerror] nor [onclose] nor any timer
    reconnects. *)
Theorem channel_opens_only_when_microphone_granted (es : list Event) (s : State) :
  openAttempts (trace (run s es)) =
    (openAttempts (trace s) + length (List.filter isMicrophoneGranted es))%nat.
Proof.
  revert s. induction es as [|e es IH]; intros s; simpl; [lia|].
  rewrite IH. destruct (step_channels e s) as [-> _].
  destruct (isMicrophoneGranted e); simpl; lia.
Qed.


Lemma startSession_begins k s :
  h_status (hooksAt k s) = DISCONNECTED ∨ h_status (hooksAt k s) = ERROR →
  let s' := startSession k s in
  status s' = CONNECTING ∧ currentStatus s' = waking ∧
  inputAudioCtxRef s' = Some (nextId s) ∧ outputAudioCtxRef s' = Some (nextId s) ∧
  callbacksOf s' !! nextId s = Some k.
Proof.
  intros Hk. unfold startSession.
  assert (bool_decide (h_status (hooksAt k s) = CONNECTING)
          || bool_decide (h_status (hooksAt k s) = CONNECTED) = false) as ->.
  { destruct Hk as [-> | ->]; reflexivity. }
  unfold fresh, emit. simpl. unfold setStatus. case_decide as Hs; simpl.
  - repeat split; [exact Hs | apply lookup_insert_eq].
  - repeat split. apply lookup_insert_eq.
Qed.

(** X8.  The button acts on the status the page shows.  In every state
    the component reaches from its mount, the [startSession] and the
    [stopSession] the button holds see the current [status] and
    [isHandsFree].  So a press while Connecting changes nothing; a press
    while Connected ends the session (status Disconnected, idle face, both
    session references cleared, the held channel closed); a press while
    Disconnected or in Error starts one (status Connecting, waking face,
    two new audio contexts, one request for the microphone) and opens no
    channel yet. *)
Theorem button_acts_on_the_current_status (s : State) :
  reachable s →
  let s' := step s ClickPower in
  match status s with
  | CONNECTING => s' = s
  | CONNECTED =>
      status s' = DISCONNECTED ∧ currentStatus s' = idle ∧
      sessionRef s' = None ∧ sessionPromiseRef s' = None ∧
      sessionCloses (trace s') = (sessionCloses (trace s) + held s)%nat ∧
      microphoneRequests (trace s') = microphoneRequests (trace s)
  | DISCONNECTED | ERROR =>
      status s' = CONNECTING ∧ currentStatus s' = waking ∧
      inputAudioCtxRef s' = Some (nextId s) ∧ outputAudioCtxRef s' = Some (nextId s) ∧
      microphoneRequests (trace s') = S (microphoneRequests (trace s)) ∧
      openAttempts (trace s') = openAttempts (trace s)
  end.
Proof.
  intros Hreach s'. subst s'.
  destruct (reachable_coherent s Hreach) as [Hco Hrd].
  destruct (current_closures s Hco Hrd) as [Hstart _].
  pose proof Hrd as [Hst _].
  assert (Hbegin : status s = DISCONNECTED ∨ status s = ERROR →
            let s' := step s ClickPower in
            status s' = CONNECTING ∧ currentStatus s' = waking ∧
            inputAudioCtxRef s' = Some (nextId s) ∧ outputAudioCtxRef s' = Some (nextId s) ∧
            microphoneRequests (trace s') = S (microphoneRequests (trace s)) ∧
            openAttempts (trace s') = openAttempts (trace s)).
  { intros Hs. cbv zeta. unfold step.
    assert (Hh : handle ClickPower s =
                 startSession (h_startSession (hooksAt (currentRender s) s)) s).
    { simpl. unfold clickPower. rewrite Hst. destruct Hs as [-> | ->]; reflexivity. }
    rewrite Hh. set (k := h_startSession (hooksAt (currentRender s) s)) in *.
    rewrite <- Hstart in Hs.
    destruct (startSession_begins k s Hs) as (H1 & H2 & H3 & H4 & _).
    destruct (startSession_counts k s) as (H5 & _ & _ & H6).
    destruct (afterRender_frame (startSession k s))
      as (-> & -> & _ & _ & _ & _ & _ & ->).
    destruct (afterRender_rest (startSession k s)) as (_ & _ & _ & -> & -> & _).
    rewrite afterRender_counts, H6.
    assert (bool_decide (h_status (hooksAt k s) = CONNECTING)
            || bool_decide (h_status (hooksAt k s) = CONNECTED) = false) as ->.
    { destruct Hs as [-> | ->]; reflexivity. }
    repeat split; first [assumption | lia]. }
  destruct (status s) eqn:Hs.
  - apply Hbegin. left. reflexivity.
  - unfold step.
    destruct (clickPower_while_live s Hrd) as [Hc _]. simpl. rewrite (Hc Hs).
    apply rendered_afterRender, Hrd.
  - unfold step. destruct (clickPower_while_live s Hrd) as [_ Hc]. simpl. rewrite (Hc Hs).
    set (k := h_stopSession (hooksAt (currentRender s) s)).
    destruct (stopSession_post k s) as (H1 & H2 & H3 & H4 & _).
    destruct (stopSession_counts k s) as (_ & H5 & H6 & _).
    destruct (afterRender_frame (stopSession k s))
      as (-> & -> & _ & _ & -> & _ & -> & _).
    destruct (afterRender_rest (stopSession k s)) as (_ & _ & _ & _ & _ & -> & _).
    rewrite afterRender_counts. tauto.
  - apply Hbegin. right. reflexivity.
Qed.

Lemma button_acts_on_the_current_status_witness :
  status (step liveSession ClickPower) = DISCONNECTED ∧
  sessionCloses (trace (step liveSession ClickPower)) = 1%nat.
Proof.
  assert (Hr : reachable liveSession) by (exists true, (connect 0); reflexivity).
  pose proof (button_acts_on_the_current_status liveSession Hr) as H.
  cbv zeta in H.
  assert (Hs : status liveSession = CONNECTED) by (vm_compute; reflexivity).
  rewrite Hs in H. destruct H as (H1 & _ & _ & _ & H5 & _).
  split; [exact H1|]. rewrite H5. vm_compute. reflexivity.
Defined.

End Channels.

Section Drain.



#[local] Arguments Qmax : simpl never.
#[local] Arguments Qplus : simpl never.

Lemma chunks_cons (x : Delivery) (ms : list Delivery) :
  chunks (x :: ms) =
    match audioData x.2 with
    | Some d => (x.1.1, d) :: chunks ms
    | None => chunks ms
    end.
Proof. unfold chunks. simpl. destruct (audioData x.2); reflexivity. Qed.

(** The sources a run of deliveries leaves playing. *)
Lemma run_messages_sources a ms :
  Forall plainDelivery ms →
  ∀ s, rendered s → is_Some (outputAudioCtxRef s) →
  let s1 := run s (map (deliver a) ms) in
  sourcesRef s1 = sourcesRef s ∪ list_to_set (seq (nextId s) (length (chunks ms))) ∧
  nextId s1 = (nextId s + length (chunks ms))%nat ∧
  currentStatus s1 = if decide (chunks ms = []) then currentStatus s else speaking.
Proof.
  induction 1 as [|x ms [Hint Hd] _ IH]; intros s Hr Hctx;
    [|rewrite chunks_cons]; simpl.
  - rewrite union_empty_r_L. repeat split. lia.
  - unfold deliver at 1 3 5.
    pose proof (rendered_step_Message a x.1.1 x.1.2 x.2 s Hr) as Hr'.
    rewrite step_Message in Hr' |- * by exact Hr.
    set (stop := stopSessionOf a s) in *.
    destruct (handleMessage_frame stop x.1.1 x.1.2 x.2 s) as (_ & _ & _ & _ & Hout & _).
    pose proof (handleMessage_playback stop x.1.1 x.1.2 x.2 s) as Hp.
    cbv zeta in Hp. rewrite Hint in Hp.
    specialize (IH _ Hr'). rewrite Hout in IH. specialize (IH Hctx).
    cbv zeta in IH. destruct IH as (-> & -> & ->).
    destruct Hctx as [c Hc]. rewrite Hc in Hp.
    destruct (audioData x.2) as [d|].
    + destruct Hp as (_ & -> & -> & ->). simpl.
      repeat split; [|lia|].
      { rewrite (union_comm_L {[nextId s]}), <- (assoc_L (∪)). reflexivity. }
      destruct (decide (chunks ms = [])); reflexivity.
    + destruct Hp as (_ & -> & -> & -> & _). repeat split.
Qed.

(** The sources and the face after a run of [onended] callbacks. *)
Lemma run_ended (ended : list nat) (s : State) :
  let s2 := run s (map SourceEnded ended) in
  sourcesRef s2 = sourcesRef s ∖ list_to_set ended ∧
  currentStatus s2 =
    if bool_decide (ended = [] ∨ sourcesRef s2 ≠ ∅) then currentStatus s else listening.
Proof.
  revert s. induction ended as [|src rest IH]; intros s;
    unfold run; cbn [map fold_left list_to_set];
    try change (fold_left step (map SourceEnded rest) (step s (SourceEnded src)))
      with (run (step s (SourceEnded src)) (map SourceEnded rest)).
  - split; [symmetry; apply difference_empty_L|].
    rewrite bool_decide_true by (left; reflexivity). reflexivity.
  - assert (Hstep : sourcesRef (step s (SourceEnded src)) = sourcesRef s ∖ {[src]} ∧
                    currentStatus (step s (SourceEnded src)) =
                      if bool_decide (size (sourcesRef s ∖ {[src]}) = 0%nat)
                      then listening else currentStatus s).
    { unfold step.
      destruct (afterRender_frame (handle (SourceEnded src) s))
        as (_ & -> & _ & _ & _ & -> & _).
      simpl. unfold onended. simpl.
      destruct (bool_decide (size (sourcesRef s ∖ {[src]}) = 0%nat)); split; reflexivity. }
    specialize (IH (step s (SourceEnded src))). cbv zeta in IH.
    destruct IH as [Hsrc Hcur].
    destruct Hstep as [Hs1 Hc1]. rewrite Hs1 in Hsrc.
    split; [rewrite Hsrc; apply difference_difference_l_L|].
    rewrite Hcur, Hc1, Hsrc. clear Hcur Hc1 Hs1 Hsrc.
    destruct (decide (sourcesRef s ∖ {[src]} ∖ list_to_set rest = ∅)) as [He|Hne].
    + rewrite (bool_decide_false (_ :: _ = [] ∨ _)) by (intros [? | ?]; [discriminate | contradiction]).
      case_bool_decide as Hrest; [|reflexivity].
      destruct Hrest as [-> | Hrest]; [|contradiction].
      simpl in He. rewrite difference_empty_L in He.
      rewrite bool_decide_true; [reflexivity|].
      apply size_empty_iff. rewrite He. reflexivity.
    + rewrite (bool_decide_true (_ :: _ = [] ∨ _)) by (right; exact Hne).
      rewrite bool_decide_true by (right; exact Hne).
      rewrite bool_decide_false; [reflexivity|].
      intros Hz. apply size_empty_iff, leibniz_equiv in Hz. apply Hne. rewrite Hz.
      apply subseteq_empty_difference_L, empty_subseteq.
Qed.

(** X9.  The face speaks until the last source has ended.  On a component
    that plays nothing, a burst of deliveries with at least one audio chunk
    and no interruption leaves the face speaking, one buffer source per
    chunk in [sourcesRef]; after any sequence of [onended] callbacks, in
    any order, the face is listening exactly when every one of these
    sources has ended, and speaking otherwise. *)
Theorem face_speaks_until_the_last_source_ends
    (a : nat) (ms : list Delivery) (ended : list nat) (s : State) :
  rendered s → is_Some (outputAudioCtxRef s) → sourcesRef s = ∅ →
  Forall plainDelivery ms → chunks ms ≠ [] →
  let s1 := run s (map (deliver a) ms) in
  let s2 := run s1 (map SourceEnded ended) in
  let played : gset nat := list_to_set (seq (nextId s) (length (chunks ms))) in
  sourcesRef s1 = played ∧ currentStatus s1 = speaking ∧
  currentStatus s2 =
    if bool_decide (played ⊆ list_to_set ended) then listening else speaking.
Proof.
  intros Hr Hctx Hsrc Hms Hne s1 s2 played.
  destruct (run_messages_sources a ms Hms s Hr Hctx) as (Hs1 & _ & Hc1).
  fold s1 in Hs1, Hc1. rewrite Hsrc in Hs1. rewrite decide_False in Hc1 by exact Hne.
  assert (Hplayed : sourcesRef s1 = played) by (rewrite Hs1; apply union_empty_l_L).
  destruct (run_ended ended s1) as [Hs2 Hc2]. fold s2 in Hs2, Hc2.
  split; [exact Hplayed|]. split; [exact Hc1|].
  rewrite Hc2, Hc1, Hs2, Hplayed.
  assert (Hin : nextId s ∈ played).
  { subst played. apply elem_of_list_to_set, elem_of_seq.
    destruct (chunks ms); [contradiction | simpl; lia]. }
  clearbody s1 s2 played. clear Hs1 Hc1 Hs2 Hc2 Hplayed.
  destruct (decide (played ⊆ list_to_set ended)) as [Hsub|Hsub].
  - rewrite (bool_decide_true _ Hsub). rewrite bool_decide_false; [reflexivity|].
    intros [-> | Hd].
    + apply (not_elem_of_empty (C := gset nat) (nextId s)), Hsub, Hin.
    + apply Hd, subseteq_empty_difference_L, Hsub.
  - rewrite (bool_decide_false _ Hsub). rewrite bool_decide_true; [reflexivity|].
    right. intros He. apply Hsub. apply elem_of_subseteq. intros x Hx.
    destruct (decide (x ∈ (list_to_set ended : gset nat))) as [Hy|Hy]; [exact Hy|].
    exfalso. apply (not_elem_of_empty (C := gset nat) x). rewrite <- He.
    apply elem_of_difference. split; assumption.
Qed.

Lemma face_speaks_until_the_last_source_ends_witness :
  let ms : list Delivery := [(0%Q, 0%Z, audioChunk 2); (1%Q, 0%Z, audioChunk 3)] in
  currentStatus (run (run liveSession (map (deliver 0) ms)) (map SourceEnded [2%nat])) = speaking ∧
  currentStatus (run (run liveSession (map (deliver 0) ms)) (map SourceEnded [2%nat; 1%nat])) = listening.
Proof.
  intros ms.
  assert (Hr : rendered liveSession) by (vm_compute; split; reflexivity).
  assert (Hctx : is_Some (outputAudioCtxRef liveSession)) by (vm_compute; eauto).
  assert (Hsrc : sourcesRef liveSession = ∅) by (vm_compute; reflexivity).
  assert (Hms : Forall plainDelivery ms).
  { repeat (constructor;
              [split; [reflexivity | intros d [= <-]; unfold Qle; simpl; lia] |]).
    constructor. }
  assert (Hne : chunks ms ≠ []) by (vm_compute; discriminate).
  split.
  - pose proof (face_speaks_until_the_last_source_ends 0 ms [2%nat] liveSession
                  Hr Hctx Hsrc Hms Hne) as H.
    cbv zeta in H. destruct H as (_ & _ & H). rewrite H. vm_compute. reflexivity.
  - pose proof (face_speaks_until_the_last_source_ends 0 ms [2%nat; 1%nat] liveSession
                  Hr Hctx Hsrc Hms Hne) as H.
    cbv zeta in H. destruct H as (_ & _ & H). rewrite H. vm_compute. reflexivity.
Defined.

End Drain.

Section History.

Lemma string_append_assoc (a b c : string) : ((a ++ b) ++ c)%string = (a ++ (b ++ c))%string.
Proof.
  induction a as [|x a IH]; [reflexivity|].
  change (String x ((a ++ b) ++ c) = String x (a ++ (b ++ c)))%string.
  rewrite IH. reflexivity.
Qed.

Lemma string_append_nil_r (a : string) : (a ++ "")%string = a.
Proof.
  induction a as [|x a IH]; [reflexivity|].
  change (String x (a ++ "") = String x a)%string. rewrite IH. reflexivity.
Qed.

#[local] Arguments truthy : simpl never.
#[local] Arguments String.append : simpl never.


(** The history and the draft after one event. *)
Lemma step_transcript e s :
  transcriptions (step s e) =
    match e with
    | Message _ _ wall m =>
        if turnComplete m && (truthy (input (draftAt m s)) || truthy (output (draftAt m s)))
        then transcriptions s ++
               [mkTranscription (input (draftAt m s)) user wall;
                mkTranscription (output (draftAt m s)) model wall]
        else transcriptions s
    | _ => transcriptions s
    end ∧
  transcriptRef (step s e) =
    match e with
    | Message _ _ _ m => if turnComplete m then mkDraft "" "" else draftAt m s
    | _ => transcriptRef s
    end.
Proof.
  destruct e as [| | | | | | | |a now wall m| | | | |];
    try (match goal with
         | |- context [step s ?e] =>
             destruct (step_rest e s) as (_ & -> & -> & _);
             [intros ? ? ? ? Hne; discriminate Hne | split; reflexivity]
         end).
  unfold step. simpl.
  destruct (afterRender_rest (handleMessage (stopSessionOf a s) now wall m s))
    as (_ & -> & -> & _).
  apply handleMessage_transcript.
Qed.



Lemma draftAt_append m s :
  draftAt m s =
    mkDraft
      (input (transcriptRef s) ++ joined (inputDeltas [Message 0 0 0 m]))
      (output (transcriptRef s) ++ joined (outputDeltas [Message 0 0 0 m])).
Proof.
  unfold draftAt, inputDeltas, outputDeltas, joined. simpl.
  destruct (inputTranscription m), (outputTranscription m); simpl;
    rewrite ?string_append_nil_r; reflexivity.
Qed.

Lemma joined_app l1 l2 : joined (l1 ++ l2) = (joined l1 ++ joined l2)%string.
Proof.
  unfold joined. induction l1 as [|x l1 IH]; simpl; [reflexivity|].
  rewrite IH, string_append_assoc. reflexivity.
Qed.

(** The draft after events none of which completes a turn. *)
Lemma run_draft (es : list Event) (s : State) :
  Forall noTurnComplete es →
  transcriptRef (run s es) =
    mkDraft (input (transcriptRef s) ++ joined (inputDeltas es))
            (output (transcriptRef s) ++ joined (outputDeltas es)) ∧
  transcriptions (run s es) = transcriptions s.
Proof.
  intros Hes. revert s. induction Hes as [|e es He _ IH]; intros s.
  - simpl. unfold joined. simpl. rewrite !string_append_nil_r.
    destruct (transcriptRef s). split; reflexivity.
  - simpl. destruct (IH (step s e)) as [-> ->].
    destruct (step_transcript e s) as [-> ->].
    destruct e as [| | | | | | | |a now wall m| | | | |];
      try (split; reflexivity).
    simpl in He. rewrite He. cbv iota. cbn [andb]. cbv iota. split; [|reflexivity].
    rewrite draftAt_append. cbn [input output].
    unfold inputDeltas, outputDeltas. simpl.
    destruct (inputTranscription m), (outputTranscription m); simpl;
      unfold joined; simpl; rewrite ?string_append_nil_r, ?string_append_assoc; reflexivity.
Qed.

(** X11.  A turn records every delta since the last completed turn.
    After any events none of which completes a turn (deltas, audio, stops
    and starts of the session, timers), the draft holds the deltas of each
    side appended in the order of arrival to what it held before; the
    history is untouched.  A message that then completes the turn adds
    the two records with these texts, its own deltas included, unless both
    are empty, and clears the draft.  Stopping the session does not clear
    the draft: what was said before a stop goes into the first turn of
    the next session. *)
Theorem turn_records_every_delta_since_the_last_turn
    (es : list Event) (a : nat) (now : Q) (wall : Z) (m : LiveServerMessage) (s : State) :
  Forall noTurnComplete es →
  turnComplete m = true →
  let last := Message a now wall m in
  let i := (input (transcriptRef s) ++ joined (inputDeltas (es ++ [last])))%string in
  let o := (output (transcriptRef s) ++ joined (outputDeltas (es ++ [last])))%string in
  transcriptRef (run s es) =
    mkDraft (input (transcriptRef s) ++ joined (inputDeltas es))
            (output (transcriptRef s) ++ joined (outputDeltas es)) ∧
  transcriptions (run s es) = transcriptions s ∧
  transcriptions (run s (es ++ [last])) =
    transcriptions s ++
      (if truthy i || truthy o
       then [mkTranscription i user wall; mkTranscription o model wall]
       else []) ∧
  transcriptRef (run s (es ++ [last])) = mkDraft "" "".
Proof.
  intros Hes Hm last i o.
  destruct (run_draft es s Hes) as [Hd Ht].
  split; [exact Hd|]. split; [exact Ht|].
  rewrite run_app. simpl.
  destruct (step_transcript last (run s es)) as [-> ->]. subst last. cbv iota beta.
  rewrite Hm, Ht, draftAt_append, Hd. cbn [input output andb].
  assert (Hi : ((input (transcriptRef s) ++ joined (inputDeltas es)) ++
                  joined (inputDeltas [Message 0 0 0 m]))%string = i).
  { subst i. unfold inputDeltas. rewrite omap_app, joined_app, string_append_assoc. reflexivity. }
  assert (Ho : ((output (transcriptRef s) ++ joined (outputDeltas es)) ++
                  joined (outputDeltas [Message 0 0 0 m]))%string = o).
  { subst o. unfold outputDeltas. rewrite omap_app, joined_app, string_append_assoc. reflexivity. }
  rewrite Hi, Ho.
  destruct (truthy i || truthy o); [|rewrite app_nil_r]; split; reflexivity.
Qed.

Lemma turn_records_every_delta_since_the_last_turn_witness :
  transcriptions
    (run liveSession
       ([Message 0 0 1 (inputDelta "good"); ClickPower; ClickPower; MicrophoneGranted 1;
         Message 1 0 2 (inputDelta "bye")] ++ [Message 1 0 3 turnCompleteMessage])) =
    [mkTranscription "goodbye" user 3; mkTranscription "" model 3].
Proof.
  pose proof (turn_records_every_delta_since_the_last_turn
                [Message 0 0 1 (inputDelta "good"); ClickPower; ClickPower;
                 MicrophoneGranted 1; Message 1 0 2 (inputDelta "bye")]
                1 0 3 turnCompleteMessage liveSession) as H.
  cbv zeta in H.
  destruct H as (_ & _ & H & _).
  - repeat (constructor; [simpl; try reflexivity; exact I|]). constructor.
  - reflexivity.
  - rewrite H. vm_compute. reflexivity.
Defined.

End History.

Section Phrases.

Lemma string_append_cons c (a b : string) : (String c a ++ b)%string = String c (a ++ b).
Proof. reflexivity. Qed.

Lemma string_append_nil_l (a : string) : ("" ++ a)%string = a.
Proof. reflexivity. Qed.

Lemma string_prefix_append (n y : string) : String.prefix n (n ++ y) = true.
Proof.
  induction n as [|c n IH]; [destruct y; reflexivity|].
  rewrite string_append_cons. simpl. destruct (ascii_dec c c); [exact IH | contradiction].
Qed.

Lemma string_prefix_inv (n h : string) : String.prefix n h = true → ∃ y, h = (n ++ y)%string.
Proof.
  revert h. induction n as [|c n IH]; intros h H.
  - exists h. reflexivity.
  - destruct h as [|d h]; [discriminate H|]. simpl in H.
    destruct (ascii_dec c d) as [->|]; [|discriminate H].
    destruct (IH h H) as [y ->]. exists y. reflexivity.
Qed.

Lemma includes_unfold (hay needle : string) :
  includes hay needle =
    if String.prefix needle hay then true
    else match hay with
         | EmptyString => false
         | String _ r => includes r needle
         end.
Proof. destruct hay; reflexivity. Qed.

(** [includes] finds a needle wherever it occurs, and only there. *)
Lemma includes_iff (hay needle : string) :
  includes hay needle = true ↔ ∃ pre post, hay = (pre ++ needle ++ post)%string.
Proof.
  split.
  - induction hay as [|c hay IH]; rewrite includes_unfold; intros H.
    + destruct (String.prefix needle "") eqn:Hp; [|discriminate H].
      destruct (string_prefix_inv _ _ Hp) as [y Hy]. exists ""%string, y. exact Hy.
    + destruct (String.prefix needle (String c hay)) eqn:Hp.
      * destruct (string_prefix_inv _ _ Hp) as [y Hy]. exists ""%string, y. exact Hy.
      * destruct (IH H) as (pre & post & ->). exists (String c pre), post. reflexivity.
  - intros (pre & post & ->). induction pre as [|c pre IH].
    + rewrite string_append_nil_l, includes_unfold, string_prefix_append. reflexivity.
    + rewrite string_append_cons, includes_unfold, IH.
      destruct (String.prefix _ _); reflexivity.
Qed.

Lemma toLowerCase_app (a b : string) :
  toLowerCase (a ++ b) = (toLowerCase a ++ toLowerCase b)%string.
Proof.
  induction a as [|c a IH]; [reflexivity|].
  rewrite string_append_cons. simpl. rewrite IH, string_append_cons. reflexivity.
Qed.

Lemma toLowerCase_app_inv (t a b : string) :
  toLowerCase t = (a ++ b)%string →
  ∃ t1 t2, t = (t1 ++ t2)%string ∧ toLowerCase t1 = a ∧ toLowerCase t2 = b.
Proof.
  revert t. induction a as [|c a IH]; intros t H.
  - exists ""%string, t. repeat split. exact H.
  - destruct t as [|d t]; [discriminate H|].
    rewrite string_append_cons in H. simpl in H. injection H as Hc Ht.
    destruct (IH t Ht) as (t1 & t2 & -> & H1 & H2).
    exists (String d t1), t2. rewrite string_append_cons. simpl. rewrite Hc, H1.
    repeat split. exact H2.
Qed.

(** Looking for a lower-case phrase in the lower-cased text finds the
    phrase in any letter case. *)
Lemma includes_heard (text phrase : string) :
  includes (toLowerCase text) phrase = true ↔ heard text phrase.
Proof.
  rewrite includes_iff. split.
  - intros (pre & post & H).
    destruct (toLowerCase_app_inv _ _ _ H) as (t1 & t23 & -> & H1 & H23).
    destruct (toLowerCase_app_inv _ _ _ H23) as (t2 & t3 & -> & H2 & H3).
    exists t1, t2, t3. split; [reflexivity | exact H2].
  - intros (pre & w & post & -> & Hw).
    exists (toLowerCase pre), (toLowerCase post).
    rewrite !toLowerCase_app, Hw. reflexivity.
Qed.

Lemma isExitCommand_heard (text : string) :
  isExitCommand (toLowerCase text) = true ↔ ∃ phrase, In phrase exitPhrases ∧ heard text phrase.
Proof.
  unfold isExitCommand. rewrite !orb_true_iff, !includes_heard. unfold exitPhrases. split.
  - intros [[H | H] | H]; eexists; (split; [|exact H]); simpl; auto.
  - intros (phrase & [<- | [<- | [<- | []]]] & H); auto.
Qed.

(** X12.  The exit phrases are heard in any letter case and anywhere in
    the delta, also inside a longer word.  An input delta schedules the
    stop, 3000 ms later, exactly when it can be cut as [pre ++ w ++ post]
    where [w] lower-cased is "goodbye", "sleep" or "stop session"; so
    "I fell ASLEEP" ends the session. *)
Theorem exit_phrase_is_heard_in_any_case_anywhere
    (text : string) (a : nat) (now : Q) (wall : Z) (s : State) :
  rendered s →
  (∃ phrase, In phrase exitPhrases ∧ heard text phrase) ↔
  timers (step s (Message a now wall (inputDelta text))) =
    timers s ++ [(3000%Z, DelayedStop (stopSessionOf a s))].
Proof.
  intros Hr. rewrite <- isExitCommand_heard.
  rewrite step_Message by exact Hr. rewrite handleMessage_timers.
  cbn [inputTranscription inputDelta].
  destruct (isExitCommand (toLowerCase text)); split; intros H;
    first [reflexivity | discriminate H | idtac].
  apply app_inv_head in H. discriminate H.
Qed.

Lemma exit_phrase_is_heard_in_any_case_anywhere_witness :
  timers (step liveSession (Message 0 0 0 (inputDelta "I fell ASLEEP"))) =
    [(3000%Z, DelayedStop 0)].
Proof.
  assert (Hr : rendered liveSession) by (vm_compute; split; reflexivity).
  destruct (exit_phrase_is_heard_in_any_case_anywhere
              "I fell ASLEEP" 0 0 0 liveSession Hr) as [H _].
  rewrite H; [vm_compute; reflexivity|].
  exists "sleep"%string. split; [simpl; auto|].
  exists "I fell A"%string, "SLEEP"%string, ""%string. split; reflexivity.
Defined.

(** X13.  The wake phrase is heard in any letter case and anywhere in the
    result: the recogniser calls [startSession] exactly when the result
    holds "wake up", or holds both "hey" and "eva", in any order and also
    inside longer words ("They took the elevator" wakes the assistant).  On any
    other result the component is left as it is. *)
Theorem wake_phrase_is_heard_in_any_case_anywhere
    (r : nat) (result : string) (s : State) :
  let wakes := heard result "wake up" ∨ (heard result "hey" ∧ heard result "eva") in
  (wakes ↔ isWakePhrase (toLowerCase result) = true) ∧
  (wakes →
   handle (RecognitionResult r result) s =
     startSession (h_startSession (hooksAt (recognitionRender r s) s)) s) ∧
  (¬ wakes → rendered s → step s (RecognitionResult r result) = s).
Proof.
  intros wakes.
  assert (Hiff : wakes ↔ isWakePhrase (toLowerCase result) = true).
  { subst wakes. unfold isWakePhrase.
    rewrite orb_true_iff, andb_true_iff, !includes_heard. reflexivity. }
  split; [exact Hiff|]. split.
  - intros H. apply Hiff in H. simpl. unfold recognition_onresult. rewrite H. reflexivity.
  - intros H Hr. unfold step. simpl. unfold recognition_onresult.
    destruct (isWakePhrase (toLowerCase result)) eqn:Hw.
    + exfalso. apply H, Hiff. reflexivity.
    + apply rendered_afterRender, Hr.
Qed.

Lemma wake_phrase_is_heard_in_any_case_anywhere_witness :
  isWakePhrase (toLowerCase "They took the elevator") = true.
Proof.
  apply (wake_phrase_is_heard_in_any_case_anywhere 0 "They took the elevator"
           (initialState true)).
  right. split.
  - exists "T"%string, "hey"%string, " took the elevator"%string. split; reflexivity.
  - exists "They took the el"%string, "eva"%string, "tor"%string. split; reflexivity.
Defined.

End Phrases.

Section HandsFree.

(** The calls to [stop] on the recogniser that [localRecognitionRef] holds. *)
Lemma stopLocalRecognition_trace s :
  trace (stopLocalRecognition s) =
    trace s ++ match localRecognitionRef s with
               | Some r => [RecognitionStop r]
               | None => []
               end.
Proof.
  unfold stopLocalRecognition, emit.
  destruct (localRecognitionRef s); simpl; [reflexivity | now rewrite app_nil_r].
Qed.

(** X14.  What the hands-free button does.  On a rendered component the
    toggle flips [isHandsFree] and leaves the session alone.  The render
    that follows stops the recogniser that [localRecognitionRef] holds, if
    any (the clean-up of the effect).  A recogniser is created and started
    only when hands-free goes on while the status is Disconnected and the
    platform has the SpeechRecognition API; when it goes on during a
    session, none is started until the session stops.  When it goes off the
    recogniser is stopped a second time and stays in
    [localRecognitionRef]. *)
Theorem hands_free_toggle_starts_and_stops_the_recogniser (s : State) :
  rendered s →
  let s' := step s ToggleHandsFree in
  let stops := match localRecognitionRef s with
               | Some r => [RecognitionStop r]
               | None => []
               end in
  isHandsFree s' = negb (isHandsFree s) ∧ status s' = status s ∧
  sessionRef s' = sessionRef s ∧ currentStatus s' = currentStatus s ∧
  if isHandsFree s
  then trace s' = trace s ++ stops ++ stops ∧
       localRecognitionRef s' = localRecognitionRef s
  else if bool_decide (status s = DISCONNECTED) && speechRecognitionAvailable s
  then trace s' = trace s ++ stops ++ stops ++ [RecognitionStart (nextId s)] ∧
       localRecognitionRef s' = Some (nextId s) ∧
       recognitionOf s' !! nextId s = Some (length (renders s))
  else trace s' = trace s ++ stops ∧
       localRecognitionRef s' = localRecognitionRef s.
Proof.
  intros [Hst Hhf] s' stops. subst s' stops. unfold step.
  destruct (afterRender_frame (handle ToggleHandsFree s)) as (-> & -> & _ & _ & -> & _).
  destruct (afterRender_rest (handle ToggleHandsFree s))
    as (_ & _ & _ & _ & _ & _ & _ & -> & _).
  simpl. unfold toggleHandsFree. rewrite Hhf.
  repeat (split; [reflexivity|]).
  unfold afterRender.
  rewrite bool_decide_false.
  2:{ unfold hooksAt, currentRender in *. simpl. rewrite Hhf.
      intros [_ H]. destruct (isHandsFree s); discriminate H. }
  unfold wakeEffect, initLocalRecognition, stopLocalRecognition, fresh, emit. simpl.
  destruct (localRecognitionRef s) as [r|] eqn:Hl; simpl; rewrite ?Hl; simpl;
    destruct (isHandsFree s); simpl; rewrite ?Hl; simpl;
    try (rewrite ?app_nil_r, <- ?app_assoc; split; reflexivity);
    destruct (bool_decide (status s = DISCONNECTED)); simpl;
    try (rewrite ?app_nil_r; split; reflexivity);
    destruct (speechRecognitionAvailable s); simpl; rewrite ?Hl; simpl;
    rewrite ?app_nil_r, <- ?app_assoc; repeat split;
    first [reflexivity | apply lookup_insert_eq].
Qed.

Lemma hands_free_toggle_starts_and_stops_the_recogniser_witness :
  isHandsFree (step (initialState true) ToggleHandsFree) = true ∧
  status (step liveSession ToggleHandsFree) = CONNECTED.
Proof.
  split.
  - pose proof (hands_free_toggle_starts_and_stops_the_recogniser (initialState true)
                  (rendered_initialState true)) as H.
    cbv zeta in H. destruct H as (H & _). rewrite H. reflexivity.
  - assert (Hr : rendered liveSession) by (vm_compute; split; reflexivity).
    pose proof (hands_free_toggle_starts_and_stops_the_recogniser liveSession Hr) as H.
    cbv zeta in H. destruct H as (_ & H & _). rewrite H. vm_compute. reflexivity.
Defined.

(** The render after [stopSession] has restarted the recogniser: the
    status changed, so the clean-up stops that recogniser and the effect
    starts another. *)
Lemma afterRender_restart k t :
  speechRecognitionAvailable t = true → isHandsFree t = true →
  status t = DISCONNECTED →
  h_status (hooksAt (currentRender t) t) ≠ DISCONNECTED →
  let n := nextId t in
  let stops := match localRecognitionRef t with
               | Some r => [RecognitionStop r]
               | None => []
               end in
  let s' := afterRender (initLocalRecognition k t) in
  trace s' =
    trace t ++ stops ++
      [RecognitionStart n; RecognitionStop n; RecognitionStop n; RecognitionStart (S n)] ∧
  localRecognitionRef s' = Some (S n).
Proof.
  intros Hsp Hhf Hst Hprev n stops s'. subst n stops s'.
  unfold afterRender.
  rewrite bool_decide_false.
  2:{ destruct (initLocalRecognition_cells k t) as (-> & _ & Hrs).
      unfold hooksAt, currentRender in *. rewrite Hrs, Hst. intros [H _]. exact (Hprev H). }
  unfold wakeEffect, initLocalRecognition, stopLocalRecognition, fresh, emit.
  rewrite Hsp. simpl.
  destruct (localRecognitionRef t) eqn:Hl; simpl; rewrite ?Hhf, ?Hst, ?Hsp; simpl;
    rewrite <- ?app_assoc; simpl; split; reflexivity.
Qed.

(** X15.  Stopping a session with hands-free on starts two recognisers.
    [stopSession] restarts the wake-word recogniser itself; the status then
    changes to Disconnected, so the render that follows stops this
    recogniser (the clean-up of the effect) and the effect creates and
    starts a second one, which [localRecognitionRef] holds from then on. *)
Theorem stop_with_hands_free_starts_two_recognisers (s : State) :
  reachable s →
  status s = CONNECTED → isHandsFree s = true → speechRecognitionAvailable s = true →
  let s' := step s ClickPower in
  let n := nextId s in
  recognitionStarts (trace s') = (recognitionStarts (trace s) + 2)%nat ∧
  localRecognitionRef s' = Some (S n) ∧
  RecognitionStart n ∈ trace s' ∧ RecognitionStop n ∈ trace s' ∧
  RecognitionStart (S n) ∈ trace s'.
Proof.
  intros Hreach Hs Hhf Hsp s' n. subst s' n.
  destruct (reachable_coherent s Hreach) as [Hco Hrd].
  destruct (current_closures s Hco Hrd) as [_ Hstop].
  destruct (clickPower_while_live s Hrd) as [_ Hc].
  unfold step. simpl. rewrite (Hc Hs).
  set (k := h_stopSession (hooksAt (currentRender s) s)) in *.
  rewrite stopSession_teardown, Hstop, Hhf.
  destruct (teardown_post s) as (Hst & _).
  destruct (teardown_frame s) as (_ & _ & Hrs & Hn & Hl & Hsp').
  destruct (teardown_trace s) as (_ & Hstarts).
  assert (Hhf' : isHandsFree (teardown s) = true).
  { rewrite teardown_isHandsFree. exact Hhf. }
  assert (Hprev : h_status (hooksAt (currentRender (teardown s)) (teardown s)) ≠ DISCONNECTED).
  { unfold hooksAt, currentRender. rewrite Hrs.
    destruct Hrd as [Hr _]. unfold hooksAt, currentRender in Hr. rewrite Hr, Hs. discriminate. }
  rewrite <- Hsp' in Hsp.
  destruct (afterRender_restart k (teardown s) Hsp Hhf' Hst Hprev) as [Htr Href].
  rewrite Hn in Htr, Href. rewrite Href, Htr. split; [|split; [reflexivity|]].
  - unfold recognitionStarts in *. rewrite !List.filter_app, !length_app, Hstarts.
    destruct (localRecognitionRef (teardown s)); simpl; lia.
  - repeat split; rewrite !elem_of_app; right; right; repeat constructor.
Qed.

Lemma stop_with_hands_free_starts_two_recognisers_witness :
  let s := run (initialState true) (ToggleHandsFree :: connect 1) in
  localRecognitionRef (step s ClickPower) = Some 3%nat.
Proof.
  intros s.
  assert (Hr : reachable s) by (exists true, (ToggleHandsFree :: connect 1); reflexivity).
  pose proof (stop_with_hands_free_starts_two_recognisers s Hr) as H.
  cbv zeta in H. destruct H as (_ & H & _); [vm_compute; reflexivity ..|].
  rewrite H. vm_compute. reflexivity.
Defined.

End HandsFree.

Section Recogniser.

Lemma noRecogniser_inert k s :
  noRecogniser s → stopLocalRecognition s = s ∧ initLocalRecognition k s = s.
Proof.
  intros (Hsp & Hl & _). unfold initLocalRecognition, stopLocalRecognition.
  rewrite Hsp, Hl. split; reflexivity.
Qed.

Lemma noRecogniser_setStatus v s : noRecogniser s → noRecogniser (setStatus v s).
Proof. unfold noRecogniser, setStatus. case_decide; simpl; tauto. Qed.

Lemma noRecogniser_teardown s : noRecogniser s → noRecogniser (teardown s).
Proof.
  intros (Hsp & Hl & Hro & Hrs & Htm & Htr).
  destruct (teardown_frame s) as (Htm' & _ & Hrs' & _ & Hl' & Hsp').
  unfold noRecogniser. rewrite Htm', Hrs', Hl', Hsp'.
  repeat (split; [assumption|]).
  split; [|split; [assumption|split; [assumption|]]].
  - unfold teardown, setStatus, emit.
    destruct (sessionRef s) eqn:?; simpl;
      destruct (inputAudioCtxRef s) eqn:Hi; simpl;
      destruct (outputAudioCtxRef s) eqn:Ho; simpl;
      case_decide; exact Hro.
  - unfold recognitionEffects in *. unfold teardown, setStatus, emit.
    destruct (sessionRef s) eqn:?; simpl;
      destruct (inputAudioCtxRef s) eqn:Hi; simpl;
      destruct (outputAudioCtxRef s) eqn:Ho; simpl;
      case_decide; simpl; rewrite ?List.filter_app, ?Htr; reflexivity.
Qed.

Lemma noRecogniser_stopSession k s : noRecogniser s → noRecogniser (stopSession k s).
Proof.
  intros H. rewrite stopSession_teardown.
  pose proof (noRecogniser_teardown s H) as Ht.
  destruct (noRecogniser_inert k _ Ht) as [_ ->].
  destruct (h_isHandsFree _); exact Ht.
Qed.

Lemma noRecogniser_startSession k s : noRecogniser s → noRecogniser (startSession k s).
Proof.
  intros (Hsp & Hl & Hro & Hrs & Htm & Htr).
  unfold startSession. destruct (_ || _); [repeat split; assumption|].
  unfold noRecogniser, recognitionEffects, fresh, emit, setStatus in *.
  case_decide; simpl; rewrite ?List.filter_app, ?Htr; simpl; tauto.
Qed.

Lemma noRecogniser_handleMessage stop now wall m s :
  noRecogniser s → noRecogniser (handleMessage stop now wall m s).
Proof.
  intros (Hsp & Hl & Hro & Hrs & Htm & Htr).
  destruct (handleMessage_rest stop now wall m s)
    as (_ & _ & Hl' & Hsp' & _ & _ & _ & _ & Hro' & Htr').
  destruct (handleMessage_frame stop now wall m s) as (_ & _ & Hrs' & _).
  unfold noRecogniser.
  rewrite Hl', Hsp', Hro', Htr', Hrs', handleMessage_timers.
  repeat (split; [assumption|]). split; [|assumption].
  apply Forall_app. split; [assumption|].
  destruct (inputTranscription m); [|constructor].
  destruct (isExitCommand _); repeat constructor.
Qed.

Lemma noRecogniser_afterRender s : noRecogniser s → noRecogniser (afterRender s).
Proof.
  intros H. unfold afterRender. case_bool_decide; [exact H|].
  set (k := length (renders s)). set (hooks := mkHooks _ _ _ _).
  set (s1 := set_renders (renders s ++ [hooks]) s).
  assert (H1 : noRecogniser s1).
  { destruct H as (Hsp & Hl & Hro & Hrs & Htm & Htr).
    unfold noRecogniser. simpl. repeat split; try assumption.
    rewrite lookup_app_l; [exact Hrs|]. apply lookup_lt_Some in Hrs. exact Hrs. }
  clearbody s1.
  destruct (noRecogniser_inert k s1 H1) as [Hstop Hinit].
  rewrite Hstop. unfold wakeEffect. rewrite Hstop, Hinit.
  destruct (_ && _); [exact H1|]. destruct (negb _); exact H1.
Qed.

Lemma noRecogniser_closure r s :
  noRecogniser s → hooksAt (recognitionRender r s) s = mountHooks.
Proof.
  intros (_ & _ & Hro & Hrs & _). unfold hooksAt, recognitionRender.
  rewrite Hro, lookup_empty. simpl. rewrite Hrs. reflexivity.
Qed.

Lemma noRecogniser_handle e s : noRecogniser s → noRecogniser (handle e s).
Proof.
  intros H. destruct e; simpl.
  - unfold clickPower. destruct (h_status _);
      auto using noRecogniser_startSession, noRecogniser_stopSession.
  - unfold toggleHandsFree. exact H.
  - unfold startSession_connect, emit, noRecogniser, recognitionEffects in *. simpl.
    rewrite List.filter_app. simpl. rewrite app_nil_r. exact H.
  - unfold startSession_catch.
    pose proof (noRecogniser_setStatus ERROR s H) as H'. exact H'.
  - exact H.
  - unfold onopen.
    pose proof (noRecogniser_setStatus CONNECTED s H) as H'.
    assert (H2 : noRecogniser (setCurrentStatus listening (setStatus CONNECTED s)))
      by exact H'.
    destruct (noRecogniser_inert 0 _ H2) as [-> _]. exact H2.
  - unfold onerror. apply noRecogniser_stopSession, noRecogniser_setStatus, H.
  - unfold onclose. apply noRecogniser_stopSession, noRecogniser_setStatus, H.
  - apply noRecogniser_handleMessage, H.
  - unfold onended. simpl. case_bool_decide; exact H.
  - unfold fireTimer. destruct (timers s !! i) as [[ms cb]|] eqn:Hi; [|exact H].
    assert (Hd : noRecogniser (set_timers (delete i (timers s)) s)).
    { destruct H as (Hsp & Hl & Hro & Hrs & Htm & Htr).
      unfold noRecogniser. simpl. repeat split; try assumption.
      apply Forall_delete, Htm. }
    destruct H as (_ & _ & _ & _ & Htm & _).
    pose proof (Forall_lookup_1 _ _ _ _ Htm Hi) as Hcb.
    destruct cb as [k|r]; [|discriminate Hcb].
    apply noRecogniser_stopSession, Hd.
  - unfold recognition_onresult. destruct (isWakePhrase _); [|exact H].
    apply noRecogniser_startSession, H.
  - unfold recognition_onerror. rewrite (noRecogniser_closure r s H). exact H.
  - unfold recognition_onend. rewrite (noRecogniser_closure r s H). exact H.
Qed.

(** X16.  Without the SpeechRecognition API the hands-free switch is
    inert.  On a platform that lacks the API, no run of events from the
    mount ever creates, starts or stops a recogniser:
    [localRecognitionRef] stays unset and no call on a recogniser is made,
    whatever the switch, the sessions and the timers do. *)
Theorem without_speech_recognition_no_recogniser_is_used (es : list Event) :
  let s := run (initialState false) es in
  speechRecognitionAvailable s = false ∧ localRecognitionRef s = None ∧
  recognitionEffects (trace s) = [] ∧ recognitionStarts (trace s) = 0%nat.
Proof.
  assert (Hrun : ∀ es s, noRecogniser s → noRecogniser (run s es)).
  { clear. induction es as [|e es IH]; intros s H; [exact H|].
    simpl. apply IH. unfold step. apply noRecogniser_afterRender, noRecogniser_handle, H. }
  assert (Hinit : noRecogniser (initialState false)).
  { unfold noRecogniser. simpl. repeat split. constructor. }
  destruct (Hrun es _ Hinit) as (Hsp & Hl & _ & _ & _ & Htr).
  cbv zeta. repeat split; try assumption.
  unfold recognitionStarts. unfold recognitionEffects in Htr.
  induction (trace (run (initialState false) es)) as [|x tr IH]; [reflexivity|].
  simpl in *. destruct x; simpl in *; try discriminate Htr; apply IH, Htr.
Qed.

Lemma run_keeps_timers es s :
  Forall (fun e => isTimerFired e = false) es →
  timers s `prefix_of` timers (run s es).
Proof.
  intros Hes. revert s. induction Hes as [|e es He _ IH]; intros s; [reflexivity|].
  simpl. etransitivity; [|apply IH].
  unfold step. destruct (afterRender_frame (handle e s)) as (_ & _ & _ & -> & _).
  apply handle_keeps_timers. intros i ->. discriminate He.
Qed.

(** X17.  A recogniser created while hands-free was on restarts itself
    one second after an error, whatever happened meanwhile.  Its
    [onerror] reads the [isHandsFree] of its own render and sets a timer;
    no callback cancels the timer; and the timer's callback calls [start]
    without looking at the status or at the switch.  So the recogniser is
    started again also when a session has been opened or hands-free has
    been switched off in between. *)
Theorem recogniser_restarts_itself_after_an_error
    (r : nat) (es : list Event) (s : State) :
  h_isHandsFree (hooksAt (recognitionRender r s) s) = true →
  Forall (fun e => isTimerFired e = false) es →
  let i := length (timers s) in
  let s1 := run (step s (RecognitionError r)) es in
  timers s1 !! i = Some (1000%Z, RecognitionRestart r) ∧
  trace (handle (TimerFired i) s1) = trace s1 ++ [RecognitionStart r].
Proof.
  intros Hhf Hes i s1.
  assert (Hi : timers s1 !! i = Some (1000%Z, RecognitionRestart r)).
  { subst s1. eapply prefix_lookup_Some; [|apply run_keeps_timers, Hes].
    unfold step. destruct (afterRender_frame (handle (RecognitionError r) s))
      as (_ & _ & _ & -> & _).
    simpl. unfold recognition_onerror. rewrite Hhf. unfold setTimeout. simpl.
    subst i. rewrite lookup_app_r, Nat.sub_diag by reflexivity. reflexivity. }
  split; [exact Hi|].
  simpl. unfold fireTimer. rewrite Hi. reflexivity.
Qed.

Lemma recogniser_restarts_itself_after_an_error_witness :
  let s := step (initialState true) ToggleHandsFree in
  let s1 := run (step s (RecognitionError 0)) (ToggleHandsFree :: connect 1) in
  isHandsFree s1 = false ∧ status s1 = CONNECTED ∧
  trace (handle (TimerFired 0) s1) = trace s1 ++ [RecognitionStart 0].
Proof.
  intros s s1.
  assert (Hhf : h_isHandsFree (hooksAt (recognitionRender 0 s) s) = true)
    by (vm_compute; reflexivity).
  assert (Hes : Forall (fun e => isTimerFired e = false) (ToggleHandsFree :: connect 1))
    by (repeat constructor).
  pose proof (recogniser_restarts_itself_after_an_error 0 _ s Hhf Hes) as H.
  cbv zeta in H. destruct H as [_ H].
  split; [vm_compute; reflexivity|]. split; [vm_compute; reflexivity|].
  exact H.
Defined.

End Recogniser.

Section Capture.

Lemma sum_abs_bounds (c : Q) (data : list Q) (acc : Q) :
  ((∀ x, List.In x data → Qabs x <= c) →
   fold_left (fun acc val => acc + Qabs val) data acc
     <= acc + c * inject_Z (Z.of_nat (length data)))%Q ∧
  ((∀ x, List.In x data → c <= Qabs x) →
   acc + c * inject_Z (Z.of_nat (length data))
     <= fold_left (fun acc val => acc + Qabs val) data acc)%Q.
Proof.
  revert acc. induction data as [|x data IH]; intros acc.
  - cbn [fold_left length].
    change (inject_Z (Z.of_nat 0)) with 0%Q. split; intros _; lra.
  - assert (Hlen : (inject_Z (Z.of_nat (length (x :: data)))
                    == inject_Z (Z.of_nat (length data)) + 1)%Q).
    { cbn [length]. rewrite Nat2Z.inj_succ. unfold Z.succ.
      rewrite inject_Z_plus. reflexivity. }
    destruct (IH (acc + Qabs x)%Q) as [IH1 IH2].
    split; intros H; cbn [fold_left]; rewrite Hlen.
    + assert (Hx : (Qabs x <= c)%Q) by (apply H; left; reflexivity).
      assert (Hr : (∀ y, List.In y data → Qabs y <= c)%Q)
        by (intros y Hy; apply H; right; exact Hy).
      specialize (IH1 Hr). lra.
    + assert (Hx : (c <= Qabs x)%Q) by (apply H; left; reflexivity).
      assert (Hr : (∀ y, List.In y data → c <= Qabs y)%Q)
        by (intros y Hy; apply H; right; exact Hy).
      specialize (IH2 Hr). lra.
Qed.

Lemma frame_length_pos (data : list Q) :
  data ≠ [] → (0 < inject_Z (Z.of_nat (length data)))%Q.
Proof.
  intros Hne. destruct data as [|x data]; [contradiction|].
  unfold Qlt. simpl. lia.
Qed.

(** The mean absolute amplitude lies between the bounds of the samples. *)
Lemma volume_bounds (c : Q) (data : list Q) :
  data ≠ [] →
  ((∀ x, List.In x data → Qabs x <= c) → volume data <= c)%Q ∧
  ((∀ x, List.In x data → c <= Qabs x) → c <= volume data)%Q.
Proof.
  intros Hne. pose proof (frame_length_pos data Hne) as Hpos. unfold volume.
  destruct (sum_abs_bounds c data 0) as [H1 H2]. split; intros H.
  - apply Qle_shift_div_r; [exact Hpos|]. specialize (H1 H). lra.
  - apply Qle_shift_div_l; [exact Hpos|]. specialize (H2 H). lra.
Qed.

Lemma setCurrentStatus_same s : setCurrentStatus (currentStatus s) s = s.
Proof. destruct s. reflexivity. Qed.

(** X18.  The capture callback and its threshold.  A frame that is not
    above the threshold changes nothing: the updater of its else-branch
    returns the status it is given.  That is the case of the empty frame
    and of every frame whose samples all lie within 0.01 of zero.  A frame
    above the threshold, such as one whose samples all lie further than
    0.01 from zero, keeps a speaking face speaking and turns every other
    face, the sleeping one included, to listening. *)
Theorem capture_changes_the_face_only_above_the_threshold
    (inputData : list Q) (s : State) :
  (isActiveFrame inputData = false → onaudioprocess inputData s = s) ∧
  (isActiveFrame inputData = true →
   currentStatus (onaudioprocess inputData s) =
     if decide (currentStatus s = speaking) then speaking else listening) ∧
  ((∀ x, List.In x inputData → Qabs x <= 1 # 100)%Q → isActiveFrame inputData = false) ∧
  (inputData ≠ [] → (∀ x, List.In x inputData → 1 # 100 < Qabs x)%Q →
   isActiveFrame inputData = true).
Proof.
  unfold onaudioprocess, captureStatus. repeat split.
  - intros ->. destruct (decide (currentStatus s = listening)) as [Hl|Hl];
      [rewrite <- Hl|]; apply setCurrentStatus_same.
  - intros ->. reflexivity.
  - intros H. unfold isActiveFrame. apply negb_false_iff, Qle_bool_iff.
    destruct inputData as [|x data].
    + unfold volume. simpl. unfold Qle. simpl. lia.
    + apply volume_bounds; [discriminate | exact H].
  - intros Hne H. unfold isActiveFrame. apply negb_true_iff.
    destruct (Qle_bool (volume inputData) (1 # 100)) eqn:Hle; [|reflexivity].
    apply Qle_bool_iff in Hle. exfalso.
    destruct inputData as [|x data]; [contradiction|].
    assert (Hmin : ∃ c, (1 # 100 < c)%Q ∧ ∀ y, List.In y (x :: data) → (c <= Qabs y)%Q).
    { clear Hle Hne. induction data as [|z data IH].
      - exists (Qabs x). split; [apply H; left; reflexivity|].
        intros y [<- | []]. apply Qle_refl.
      - destruct IH as (c & Hc & Hall).
        { intros y [<- | Hy]; apply H; [left | right; right]; auto. }
        assert (Hz : (1 # 100 < Qabs z)%Q) by (apply H; right; left; reflexivity).
        destruct (Qlt_le_dec c (Qabs z)) as [Hlt|Hge].
        + exists c. split; [exact Hc|].
          intros y [<- | [<- | Hy]].
          * apply Hall. left. reflexivity.
          * apply Qlt_le_weak, Hlt.
          * apply Hall. right. exact Hy.
        + exists (Qabs z). split; [exact Hz|].
          intros y [<- | [<- | Hy]].
          * eapply Qle_trans; [exact Hge | apply Hall; left; reflexivity].
          * apply Qle_refl.
          * eapply Qle_trans; [exact Hge | apply Hall; right; exact Hy]. }
    destruct Hmin as (c & Hc & Hall).
    destruct (volume_bounds c (x :: data) Hne) as [_ Hlow].
    specialize (Hlow Hall). lra.
Qed.

Lemma capture_changes_the_face_only_above_the_threshold_witness :
  onaudioprocess [(1 # 200)%Q; (- (1 # 100))%Q; 0%Q] liveSession = liveSession ∧
  currentStatus (onaudioprocess [(1 # 2)%Q; (- (1 # 3))%Q] (initialState true)) = listening.
Proof.
  split.
  - destruct (capture_changes_the_face_only_above_the_threshold
                [(1 # 200)%Q; (- (1 # 100))%Q; 0%Q] liveSession) as (H1 & _ & H3 & _).
    apply H1, H3. intros x [<- | [<- | [<- | []]]]; vm_compute; discriminate.
  - destruct (capture_changes_the_face_only_above_the_threshold
                [(1 # 2)%Q; (- (1 # 3))%Q] (initialState true)) as (_ & H2 & _ & H4).
    rewrite H2; [reflexivity|].
    apply H4; [discriminate|]. intros x [<- | [<- | []]]; vm_compute; reflexivity.
Defined.

End Capture.

Section Page.

#[local] Arguments truthy : simpl never.




(** X20.  The preferences panel offers every language and every voice of
    the types exactly once, and highlights exactly the current ones.  When
    closed it renders nothing.  When open, for each language (voice) there
    is one button, whose click hands that language (voice) to the parent,
    drawn as selected exactly when it is the current one; so one language
    button and one voice button are drawn as selected. *)
Theorem settings_offer_every_option_once
    (voice : VoiceName) (language : SupportedLanguage) :
  Settings false voice language = None ∧
  ∃ languages voices,
    Settings true voice language = Some (languages, voices) ∧
    (∀ lang, List.filter (fun b => bool_decide (b.1 = lang)) languages =
               [(lang, bool_decide (language = lang))]) ∧
    (∀ v, List.filter (fun b => bool_decide (b.1 = v)) voices =
            [(v, bool_decide (voice = v))]) ∧
    List.filter snd languages = [(language, true)] ∧
    List.filter snd voices = [(voice, true)].
Proof.
  split; [reflexivity|]. eexists _, _. split; [reflexivity|].
  split; [|split; [|split]].
  - intros lang. destruct language, lang; reflexivity.
  - intros v. destruct voice, v; reflexivity.
  - destruct language; reflexivity.
  - destruct voice; reflexivity.
Qed.

(** X21.  The face tells the four statuses apart, and sleeps with its
    eyes shut.  The colour of the face and that of the glow differ for any
    two statuses.  The eyes of the idle face are 8 pixels high whether or
    not the blink is on; in every other status the blink narrows them to 4
    pixels, less than their open height; and an eye is never higher than
    48 pixels nor flat. *)
Theorem face_tells_the_statuses_apart :
  (∀ s1 s2, getFaceColor s1 = getFaceColor s2 → s1 = s2) ∧
  (∀ s1 s2, getGlowColor s1 = getGlowColor s2 → s1 = s2) ∧
  (∀ blink, eyePixels idle blink = 8%Z) ∧
  (∀ status, status ≠ idle →
     eyePixels status true = 4%Z ∧ (eyePixels status true < eyePixels status false)%Z) ∧
  (∀ status blink, (0 < eyePixels status blink <= 48)%Z).
Proof.
  split; [|split; [|split; [|split]]].
  - intros [] []; first [reflexivity | intros H; discriminate H].
  - intros [] []; first [reflexivity | intros H; discriminate H].
  - intros []; reflexivity.
  - intros [] H; first [contradiction | split; reflexivity].
  - intros [] []; split; first [reflexivity | intros H; discriminate H].
Qed.

End Page.

Section Restart.

#[local] Arguments Qmax : simpl never.
#[local] Arguments Qplus : simpl never.

(** X22.  A restarted session inherits the schedule of the one before.
    Neither [stopSession] nor [startSession] resets [nextStartTimeRef], so
    after any events without an interruption (a stop and a new start among
    them) the first audio chunk is scheduled no earlier than the next
    start time reached before: on the new audio context, whose clock
    starts again from zero, the first segment waits until the time at
    which the playback of the previous session would have ended. *)
Theorem first_chunk_after_a_restart_waits_for_the_old_schedule
    (es : list Event) (a : nat) (now : Q) (wall : Z) (d : Q) (s : State) :
  Forall soundEvent es → Forall notInterruption es →
  is_Some (outputAudioCtxRef (run s es)) →
  let s1 := run s es in
  let s2 := step s1 (Message a now wall (audioChunk d)) in
  let t := Qmax (nextStartTimeRef s1) now in
  scheduledSince s1 s2 = [(t, d)] ∧ (nextStartTimeRef s <= t)%Q ∧ (now <= t)%Q.
Proof.
  intros Hes Hni Hctx s1 s2 t. subst s2 t.
  pose proof (run_next_time_mono es s Hes Hni) as Hmono. fold s1 in Hmono, Hctx.
  clearbody s1. split; [|split].
  - unfold scheduledSince, step. simpl.
    destruct (afterRender_rest (handleMessage (stopSessionOf a s1) now wall (audioChunk d) s1))
      as (_ & _ & _ & _ & _ & _ & -> & _).
    pose proof (handleMessage_schedule (stopSessionOf a s1) (now, wall, audioChunk d) s1 Hctx
                  eq_refl) as Hs.
    cbv zeta in Hs. cbn [fst snd] in Hs. destruct Hs as (-> & _).
    rewrite drop_app_length. reflexivity.
  - eapply Qle_trans; [exact Hmono | apply Q.le_max_l].
  - apply Q.le_max_r.
Qed.

Lemma first_chunk_after_a_restart_waits_for_the_old_schedule_witness :
  let s := step liveSession (Message 0 0 0 (audioChunk 10)) in
  let restart := [ClickPower; ClickPower; MicrophoneGranted 2; ChannelOpen 2] in
  outputAudioCtxRef (run s restart) = Some 2%nat ∧
  scheduledSince (run s restart)
    (step (run s restart) (Message 2 (1 # 10) 1 (audioChunk 1))) = [(10%Q, 1%Q)].
Proof.
  intros s restart.
  assert (Hes : Forall soundEvent restart) by (repeat constructor).
  assert (Hni : Forall notInterruption restart) by (repeat constructor).
  assert (Hctx : outputAudioCtxRef (run s restart) = Some 2%nat) by (vm_compute; reflexivity).
  split; [exact Hctx|].
  pose proof (first_chunk_after_a_restart_waits_for_the_old_schedule
                restart 2 (1 # 10) 1 1 s Hes Hni) as H.
  cbv zeta in H. destruct H as (H & _); [rewrite Hctx; eauto|].
  rewrite H. vm_compute. reflexivity.
Defined.

(** The sources after a callback other than a message or the end of a
    source. *)
Lemma handle_sources e s :
  sourcesRef (handle e s) =
    match e with
    | Message a now wall m => sourcesRef (handleMessage (stopSessionOf a s) now wall m s)
    | SourceEnded src => sourcesRef s ∖ {[src]}
    | _ => sourcesRef s
    end.
Proof.
  assert (Hstart : ∀ k s0, sourcesRef (startSession k s0) = sourcesRef s0).
  { intros k s0. unfold startSession. destruct (_ || _); [reflexivity|].
    unfold fresh, emit, setStatus. case_decide; reflexivity. }
  assert (Hstop : ∀ k s0, sourcesRef (stopSession k s0) = sourcesRef s0)
    by (intros; apply stopSession_post).
  assert (Hset : ∀ v s0, sourcesRef (setStatus v s0) = sourcesRef s0)
    by (intros; apply setStatus_frame).
  destruct e; simpl.
  - unfold clickPower. destruct (h_status _); auto.
  - reflexivity.
  - reflexivity.
  - unfold startSession_catch. simpl. apply Hset.
  - reflexivity.
  - unfold onopen, stopLocalRecognition. simpl.
    destruct (localRecognitionRef _); simpl; apply Hset.
  - unfold onerror. rewrite Hstop. apply Hset.
  - unfold onclose. rewrite Hstop. apply Hset.
  - reflexivity.
  - unfold onended. simpl. case_bool_decide; reflexivity.
  - unfold fireTimer. destruct (timers s !! i) as [[ms [k|r]]|]; try reflexivity.
    rewrite Hstop. reflexivity.
  - unfold recognition_onresult. destruct (isWakePhrase _); auto.
  - unfold recognition_onerror. destruct (h_isHandsFree _); reflexivity.
  - unfold recognition_onend. destruct (_ && _); reflexivity.
Qed.

Lemma step_keeps_source x e s :
  notInterruption e → notEndOf x e → x ∈ sourcesRef s → x ∈ sourcesRef (step s e).
Proof.
  intros Hni Hne Hx. unfold step.
  destruct (afterRender_frame (handle e s)) as (_ & _ & _ & _ & _ & -> & _).
  rewrite handle_sources.
  destruct e as [| | | | | | | |a now wall m|src| | | |]; try exact Hx.
  - simpl in Hni.
    pose proof (handleMessage_playback (stopSessionOf a s) now wall m s) as H.
    cbv zeta in H. rewrite Hni in H.
    destruct (audioData m) as [d|], (outputAudioCtxRef s);
      try (destruct H as (_ & -> & _); exact Hx).
    destruct H as (_ & -> & _). apply elem_of_union. right. exact Hx.
  - simpl in Hne. apply elem_of_difference. split; [exact Hx|].
    intros Hs. apply elem_of_singleton in Hs. congruence.
Qed.

(** X23.  A source that never reports its end keeps the face from
    listening.  [stopSession] and [startSession] leave [sourcesRef] as it
    is, and only [onended] of a source, or an interruption, takes the
    source out.  So a source that is in the set and whose [onended] does
    not run (the source of a session that was stopped, say) is still
    there after any events without an interruption, in the next session
    too; and as long as it is, the end of another source never sets the
    face to listening. *)
Theorem source_that_never_ends_keeps_the_face_from_listening
    (x : nat) (es : list Event) (s : State) :
  x ∈ sourcesRef s →
  Forall notInterruption es → Forall (notEndOf x) es →
  let s1 := run s es in
  x ∈ sourcesRef s1 ∧
  ∀ y, y ≠ x →
    let s2 := step s1 (SourceEnded y) in
    x ∈ sourcesRef s2 ∧ currentStatus s2 = currentStatus s1.
Proof.
  intros Hx Hni Hne.
  assert (Hrun : x ∈ sourcesRef (run s es)).
  { revert s Hx Hne. induction Hni as [|e es He _ IH]; intros s Hx Hne; [exact Hx|].
    inversion Hne; subst. simpl. apply IH; [|assumption].
    apply step_keeps_source; assumption. }
  cbv zeta. split; [exact Hrun|]. intros y Hy.
  set (s1 := run s es) in *. clearbody s1.
  split; [apply step_keeps_source; [exact I | exact Hy | exact Hrun]|].
  unfold step.
  destruct (afterRender_frame (handle (SourceEnded y) s1)) as (_ & -> & _).
  simpl. unfold onended. simpl.
  rewrite bool_decide_false; [reflexivity|].
  intros Hz. apply size_empty_iff in Hz.
  apply (not_elem_of_empty (C := gset nat) x). rewrite <- Hz.
  apply elem_of_difference. split; [exact Hrun|].
  intros Hs. apply elem_of_singleton in Hs. congruence.
Qed.

Lemma source_that_never_ends_keeps_the_face_from_listening_witness :
  let s := step liveSession (Message 0 0 0 (audioChunk 10)) in
  let es := [ClickPower; ClickPower; MicrophoneGranted 2; ChannelOpen 2;
             Message 2 (1 # 10) 1 (audioChunk 1)] in
  (1%nat ∈ sourcesRef s) ∧
  currentStatus (step (run s es) (SourceEnded 3)) = speaking.
Proof.
  intros s es.
  assert (Hx : 1%nat ∈ sourcesRef s) by (vm_compute; reflexivity).
  assert (Hni : Forall notInterruption es) by (repeat constructor).
  assert (Hne : Forall (notEndOf 1) es) by (repeat constructor).
  split; [exact Hx|].
  pose proof (source_that_never_ends_keeps_the_face_from_listening 1 es s Hx Hni Hne) as H.
  cbv zeta in H. destruct H as [_ H]. destruct (H 3%nat) as [_ ->]; [lia|].
  vm_compute. reflexivity.
Defined.

End Restart.
